(** * Antigravity-Manager web API: proxy lifecycle, hot-reload, telemetry,
    version comparison and z.ai model listing.

    Shallow embedding of [src-tauri/src/web_api.rs].  Each axum handler
    becomes a function from the shared [WebApiState] (plus the outcomes of
    the external calls it makes) to the new state and the [ApiResponse].
    A handler holding the write lock of [proxy_instance] for its whole body
    ([start_proxy_service], [stop_proxy_service]) is one atomic step.

    The collaborators that live in [crate::proxy] ([TokenManager],
    [ProxyMonitor], [AxumServer]) are not part of this source tree; the
    parts the handlers rely on are modelled from the spec and marked
    "Modelled from the spec". *)

From Stdlib Require Import NArith ZArith Lia Sorted.
From stdpp Require Import base list gmap strings pretty.

Set Warnings "-register-all".

(* ================================================================== *)
(** ** Configuration (crate::proxy::ProxyConfig, the fields used here) *)

(** Only [Off] is distinguished by the handlers. *)
Inductive ZaiDispatchMode := Off | Exclusive | Pooled | Fallback.

(** [matches!(mode, ZaiDispatchMode::Off)] *)
Definition is_off (m : ZaiDispatchMode) : bool :=
  match m with Off => true | _ => false end.

(** A Rust [String] seen as its sequence of Unicode scalar values. *)
Abbreviation rstr := (list N).

Record ZaiConfig := mkZaiConfig {
  zai_enabled : bool;
  zai_base_url : rstr;
  zai_api_key : rstr;
  zai_dispatch_mode : ZaiDispatchMode;
}.

Record UpstreamProxyConfig := mkUpstreamProxyConfig {
  up_enabled : bool;
  up_url : rstr;
}.

(** [ProxySecurityConfig::from_proxy_config]: the security slice. *)
Record ProxySecurityConfig := mkProxySecurityConfig {
  sec_auth_required : bool;
  sec_api_key : string;
}.

Record StickySessionConfig := mkStickySessionConfig {
  sticky_enabled : bool;
  sticky_ttl : N;
}.

(** [StickySessionConfig::default()] *)
Definition default_sticky : StickySessionConfig := mkStickySessionConfig true 600.

Record ProxyConfig := mkProxyConfig {
  pc_port : N;
  pc_enable_logging : bool;
  pc_custom_mapping : gmap string string;
  pc_upstream_proxy : UpstreamProxyConfig;
  pc_security : ProxySecurityConfig;
  pc_zai : ZaiConfig;
  pc_scheduling : StickySessionConfig;
}.

(* ================================================================== *)
(** ** Accounts and the token manager *)

Record QuotaData := mkQuotaData { is_forbidden : bool }.

(** An account file [accounts/<id>.json] as [crate::models::Account]
    deserialises it (the fields read here); the id is the store key. *)
Record Account := mkAccount {
  acc_disabled : bool;
  acc_proxy_disabled : bool;
  acc_proxy_disabled_reason : option string;
  acc_proxy_disabled_at : option Z;
  acc_quota : option QuotaData;
}.

(** The account store: one deserialised file per id. *)
Abbreviation AccountStore := (gmap string Account).

Definition quota_forbidden (a : Account) : bool :=
  match acc_quota a with Some q => is_forbidden q | None => false end.

(** Modelled from the spec: eligibility of the Pool Manager (enabled and
    not quota-forbidden).  An account is disabled either for everything
    ([disabled]) or for the proxy only ([proxy_disabled], the flag written
    by [toggle_proxy_status]). *)
Definition eligible (a : Account) : bool :=
  negb (acc_disabled a) && negb (acc_proxy_disabled a) && negb (quota_forbidden a).

(** Modelled from the spec: the in-memory state of [TokenManager]: the
    selectable pool (id, record) in rotation order, the round-robin cursor,
    the sticky session table (session key to account id) and the sticky
    policy. *)
Record TokenManager := mkTokenManager {
  tm_pool : list (string * Account);
  tm_cursor : nat;
  tm_sessions : gmap string string;
  tm_sticky : StickySessionConfig;
}.

Definition TokenManager_new : TokenManager := mkTokenManager [] 0 ∅ default_sticky.

Definition update_sticky_config (c : StickySessionConfig) (tm : TokenManager) : TokenManager :=
  mkTokenManager (tm_pool tm) (tm_cursor tm) (tm_sessions tm) c.

(** Modelled from the spec: [load_accounts] re-reads every record of the
    store, keeps the selectable ones and returns their number.  A failed
    read of the store as a whole is an error. *)
Definition load_accounts (store : AccountStore + string) (tm : TokenManager)
    : (TokenManager * nat) + string :=
  match store with
  | inr e => inr e
  | inl s =>
      let pool := filter (fun ia => eligible ia.2 = true) (map_to_list s) in
      inl (mkTokenManager pool 0 (tm_sessions tm) (tm_sticky tm), length pool)
  end.

(** [token_manager.len()] *)
Definition tm_len (tm : TokenManager) : nat := length (tm_pool tm).

(* ================================================================== *)
(** ** Monitor (crate::proxy::monitor::ProxyMonitor) *)

Record ProxyRequestLog := mkProxyRequestLog {
  log_id : nat;
  log_account : string;
  log_status : N;
}.

Record ProxyStats := mkProxyStats {
  total_requests : nat;
  success_count : nat;
  error_count : nat;
}.

(** [ProxyStats::default()] *)
Definition ProxyStats_default : ProxyStats := mkProxyStats 0 0 0.

(** Modelled from the spec: a fixed-capacity log buffer, most recent
    entry first, with incrementally maintained counters. *)
Record ProxyMonitor := mkProxyMonitor {
  mon_capacity : nat;
  mon_enabled : bool;
  mon_logs : list ProxyRequestLog;
  mon_stats : ProxyStats;
}.

Definition ProxyMonitor_new (capacity : nat) : ProxyMonitor :=
  mkProxyMonitor capacity true [] ProxyStats_default.

Definition set_enabled (b : bool) (m : ProxyMonitor) : ProxyMonitor :=
  mkProxyMonitor (mon_capacity m) b (mon_logs m) (mon_stats m).

Definition bump_stats (st : ProxyStats) (e : ProxyRequestLog) : ProxyStats :=
  if (200 <=? log_status e)%N && (log_status e <? 400)%N
  then mkProxyStats (S (total_requests st)) (S (success_count st)) (error_count st)
  else mkProxyStats (S (total_requests st)) (success_count st) (S (error_count st)).

(** Modelled from the spec: [record] pushes the entry at the front and
    drops the oldest one beyond the capacity; when disabled it is a
    no-op. *)
Definition record (e : ProxyRequestLog) (m : ProxyMonitor) : ProxyMonitor :=
  if mon_enabled m
  then mkProxyMonitor (mon_capacity m) true
         (take (mon_capacity m) (e :: mon_logs m)) (bump_stats (mon_stats m) e)
  else m.

(** A sequence of [record] calls, oldest first. *)
Definition record_all (es : list ProxyRequestLog) (m : ProxyMonitor) : ProxyMonitor :=
  fold_left (fun m e => record e m) es m.

(** Modelled from the spec: most recent first, at most [limit]. *)
Definition get_logs (limit : nat) (m : ProxyMonitor) : list ProxyRequestLog :=
  take limit (mon_logs m).

Definition get_stats (m : ProxyMonitor) : ProxyStats := mon_stats m.

Definition clear (m : ProxyMonitor) : ProxyMonitor :=
  mkProxyMonitor (mon_capacity m) (mon_enabled m) [] ProxyStats_default.

(* ================================================================== *)
(** ** The running server (crate::proxy::AxumServer) *)

(** Modelled from the spec: the server keeps each hot-reloadable slice of
    the live configuration on its own, and each [update_*] replaces one
    slice in a single step. *)
Record AxumServer := mkAxumServer {
  srv_id : nat;
  srv_mapping : gmap string string;
  srv_upstream : UpstreamProxyConfig;
  srv_security : ProxySecurityConfig;
  srv_zai : ZaiConfig;
}.

Definition update_mapping (c : ProxyConfig) (s : AxumServer) : AxumServer :=
  mkAxumServer (srv_id s) (pc_custom_mapping c) (srv_upstream s) (srv_security s) (srv_zai s).
Definition update_proxy (u : UpstreamProxyConfig) (s : AxumServer) : AxumServer :=
  mkAxumServer (srv_id s) (srv_mapping s) u (srv_security s) (srv_zai s).
Definition update_security (c : ProxyConfig) (s : AxumServer) : AxumServer :=
  mkAxumServer (srv_id s) (srv_mapping s) (srv_upstream s) (pc_security c) (srv_zai s).
Definition update_zai (c : ProxyConfig) (s : AxumServer) : AxumServer :=
  mkAxumServer (srv_id s) (srv_mapping s) (srv_upstream s) (srv_security s) (pc_zai c).

(** [AxumServer::start] once the socket is bound. *)
Definition AxumServer_started (id : nat) (c : ProxyConfig) : AxumServer :=
  mkAxumServer id (pc_custom_mapping c) (pc_upstream_proxy c) (pc_security c) (pc_zai c).

(* ================================================================== *)
(** ** Shared state of the web API *)

Record ProxyServiceInstance := mkProxyServiceInstance {
  inst_config : ProxyConfig;
  inst_token_manager : TokenManager;
  inst_server : AxumServer;
}.

(** [WebApiState] together with the number of listening sockets the
    process holds (servers started and not yet joined). *)
Record WebApiState := mkWebApiState {
  proxy_instance : option ProxyServiceInstance;
  monitor : option ProxyMonitor;
  listeners : nat;
}.

Definition WebApiState_new : WebApiState := mkWebApiState None None 0.

Definition set_instance (w : WebApiState) (i : option ProxyServiceInstance) : WebApiState :=
  mkWebApiState i (monitor w) (listeners w).
Definition set_monitor (w : WebApiState) (m : option ProxyMonitor) : WebApiState :=
  mkWebApiState (proxy_instance w) m (listeners w).

(** The handlers' error messages, by meaning. *)
Inductive ApiError :=
  | AlreadyRunning                 (* "服务已在运行中" *)
  | NotRunning                     (* "服务未运行" *)
  | DataDirError (e : string)      (* get_data_dir failed *)
  | LoadAccountsFailed (e : string)(* "加载账号失败: ..." *)
  | NoAccountsConfigured           (* "没有可用账号，请先添加账号" *)
  | StartServerFailed (e : string) (* "启动服务器失败: ..." *)
  | OtherError (e : string).

(** [ApiResponse<T>]: [success] with [data], or an [error]. *)
Inductive ApiResponse (A : Type) :=
  | ApiOk (a : A)
  | ApiErr (e : ApiError).
Arguments ApiOk {A} a.
Arguments ApiErr {A} e.

Record ProxyStatus := mkProxyStatus {
  running : bool;
  port : N;
  base_url : string;
  active_accounts : nat;
}.

Definition format_base_url (p : N) : string := "http://127.0.0.1:" +:+ pretty p.

(** The outcomes of the external calls [start_proxy_service] makes:
    [get_data_dir], the read of the account store by [load_accounts], and
    binding the socket in [AxumServer::start]. *)
Record StartEnv := mkStartEnv {
  env_data_dir : string + string;
  env_read : unit + string;
  env_bind : unit + string;
}.

(** The account store as [load_accounts] reads it from [disk]. *)
Definition read_store (r : unit + string) (disk : AccountStore) : AccountStore + string :=
  match r with inl _ => inl disk | inr e => inr e end.

(* ================================================================== *)
(** ** Lifecycle handlers *)

(** [start_proxy_service]; the write lock on [proxy_instance] is held for
    the whole body.  Saving the config to disk at the end is not
    modelled. *)
Definition start_proxy_service (env : StartEnv) (config : ProxyConfig) (disk : AccountStore)
    (w : WebApiState)
    : WebApiState * ApiResponse ProxyStatus :=
  match proxy_instance w with Some _ => (w, ApiErr AlreadyRunning) | None =>
  (* ensure the monitor exists *)
  let m := match monitor w with
           | None => ProxyMonitor_new 1000
           | Some m => m
           end in
  let w := set_monitor w (Some (set_enabled (pc_enable_logging config) m)) in
  match env_data_dir env with
  | inr e => (w, ApiErr (DataDirError e))
  | inl _ =>
    let tm := update_sticky_config (pc_scheduling config) TokenManager_new in
    match load_accounts (read_store (env_read env) disk) tm with
    | inr e => (w, ApiErr (LoadAccountsFailed e))
    | inl (tm, active) =>
      let zai_on := zai_enabled (pc_zai config)
                    && negb (is_off (zai_dispatch_mode (pc_zai config))) in
      if (Nat.eqb active 0) && negb zai_on then (w, ApiErr NoAccountsConfigured) else
      match env_bind env with
      | inr e => (w, ApiErr (StartServerFailed e))
      | inl _ =>
        let srv := AxumServer_started (listeners w) config in
        let inst := mkProxyServiceInstance config tm srv in
        (mkWebApiState (Some inst) (monitor w) (S (listeners w)),
         ApiOk (mkProxyStatus true (pc_port config) (format_base_url (pc_port config)) active))
      end
    end
  end
  end.

(** [stop_proxy_service]: takes the instance, stops the server and awaits
    its task, so its socket is released before the handler returns. *)
Definition stop_proxy_service (w : WebApiState) : WebApiState * ApiResponse unit :=
  match proxy_instance w with
  | None => (w, ApiErr NotRunning)
  | Some _ => (mkWebApiState None (monitor w) (pred (listeners w)), ApiOk ())
  end.

Definition get_proxy_status (w : WebApiState) : ApiResponse ProxyStatus :=
  match proxy_instance w with
  | Some i => ApiOk (mkProxyStatus true (pc_port (inst_config i))
                       (format_base_url (pc_port (inst_config i)))
                       (tm_len (inst_token_manager i)))
  | None => ApiOk (mkProxyStatus false 0 "" 0)
  end.

Definition get_proxy_stats (w : WebApiState) : ApiResponse ProxyStats :=
  match monitor w with
  | Some m => ApiOk (get_stats m)
  | None => ApiOk ProxyStats_default
  end.

(** [LogsQuery { limit: Option<usize> }] *)
Definition get_proxy_logs (w : WebApiState) (limit : option nat)
    : ApiResponse (list ProxyRequestLog) :=
  match monitor w with
  | Some m => ApiOk (get_logs (default 100 limit) m)
  | None => ApiOk []
  end.

Definition clear_proxy_logs (w : WebApiState) : WebApiState * ApiResponse unit :=
  match monitor w with
  | Some m => (set_monitor w (Some (clear m)), ApiOk ())
  | None => (w, ApiOk ())
  end.

Definition set_proxy_monitor_enabled (w : WebApiState) (enabled : bool)
    : WebApiState * ApiResponse unit :=
  match monitor w with
  | Some m => (set_monitor w (Some (set_enabled enabled m)), ApiOk ())
  | None => (w, ApiOk ())
  end.

(* ================================================================== *)
(** ** Hot-reload handlers *)

(** Replace the server of the running instance, if any. *)
Definition on_server (f : AxumServer -> AxumServer) (w : WebApiState) : WebApiState :=
  match proxy_instance w with
  | Some i => set_instance w (Some (mkProxyServiceInstance (inst_config i)
                                      (inst_token_manager i) (f (inst_server i))))
  | None => w
  end.

(** The four awaited updates [save_config] applies to a running server,
    in source order. *)
Definition save_config_steps (c : ProxyConfig) : list (AxumServer -> AxumServer) :=
  [update_mapping c; update_proxy (pc_upstream_proxy c); update_security c; update_zai c].

Definition apply_steps (fs : list (AxumServer -> AxumServer)) (s : AxumServer) : AxumServer :=
  fold_left (fun s f => f s) fs s.

(** The server states between the awaited steps: what a request being
    dispatched concurrently can observe. *)
Fixpoint trace_steps (fs : list (AxumServer -> AxumServer)) (s : AxumServer) : list AxumServer :=
  s :: match fs with
       | [] => []
       | f :: fs => trace_steps fs (f s)
       end.

(** [save_config]: [saved] is the outcome of [modules::save_app_config];
    [c] is [config.proxy]. *)
Definition save_config (saved : unit + string) (c : ProxyConfig) (w : WebApiState)
    : WebApiState * ApiResponse unit :=
  match saved with
  | inr e => (w, ApiErr (OtherError e))
  | inl _ => (on_server (apply_steps (save_config_steps c)) w, ApiOk ())
  end.

Definition save_config_observed (saved : unit + string) (c : ProxyConfig) (w : WebApiState)
    : list AxumServer :=
  match saved, proxy_instance w with
  | inl _, Some i => trace_steps (save_config_steps c) (inst_server i)
  | _, Some i => [inst_server i]
  | _, None => []
  end.

(** [update_model_mapping]; persisting the mapping is not modelled. *)
Definition update_model_mapping (c : ProxyConfig) (w : WebApiState)
    : WebApiState * ApiResponse unit :=
  (on_server (update_mapping c) w, ApiOk ()).

(* ================================================================== *)
(** ** Pool selection and sticky sessions *)

Definition set_pool (tm : TokenManager) (p : list (string * Account)) (cur : nat) : TokenManager :=
  mkTokenManager p cur (tm_sessions tm) (tm_sticky tm).
Definition set_sessions (tm : TokenManager) (ss : gmap string string) : TokenManager :=
  mkTokenManager (tm_pool tm) (tm_cursor tm) ss (tm_sticky tm).

(** Round robin: the first pool entry at or after position [start + k]
    (cyclically) whose id is not excluded. *)
Fixpoint rotate_from (pool : list (string * Account)) (exclude : gset string)
    (start k fuel : nat) : option (nat * (string * Account)) :=
  match fuel with
  | O => None
  | S fuel =>
      let idx := (start + k) mod length pool in
      match pool !! idx with
      | Some p => if bool_decide (p.1 ∈ exclude)
                  then rotate_from pool exclude start (S k) fuel
                  else Some (idx, p)
      | None => None
      end
  end.

(** Modelled from the spec: [select_next(exclude)]; [None] is
    [NoEligibleAccount].  The cursor moves past the chosen entry. *)
Definition select_next (exclude : gset string) (tm : TokenManager)
    : option (string * Account * TokenManager) :=
  let pool := tm_pool tm in
  match rotate_from pool exclude (tm_cursor tm) 0 (length pool) with
  | Some (idx, (id, a)) => Some (id, a, set_pool tm pool (S idx mod length pool))
  | None => None
  end.

(** Modelled from the spec: [mark_ineligible(id)] takes the account out
    of the selectable set. *)
Definition mark_ineligible (id : string) (tm : TokenManager) : TokenManager :=
  set_pool tm (filter (fun p => p.1 <> id) (tm_pool tm)) (tm_cursor tm).

(** Fresh selection for a session key, binding it when stickiness is on. *)
Definition fresh_select (key : string) (tm : TokenManager) : option (string * TokenManager) :=
  match select_next ∅ tm with
  | Some (id, _, tm') =>
      if sticky_enabled (tm_sticky tm)
      then Some (id, set_sessions tm' (<[key:=id]> (tm_sessions tm')))
      else Some (id, tm')
  | None => None
  end.

(** Modelled from the spec: [resolve(session_key)] returns the bound
    account while it is still selectable, and otherwise selects afresh. *)
Definition resolve (key : string) (tm : TokenManager) : option (string * TokenManager) :=
  if sticky_enabled (tm_sticky tm) then
    match tm_sessions tm !! key with
    | Some id => if bool_decide (id ∈ (tm_pool tm).*1) then Some (id, tm) else fresh_select key tm
    | None => fresh_select key tm
    end
  else fresh_select key tm.

(** Modelled from the spec: [clear_all_sessions()] drops every binding. *)
Definition clear_all_sessions (tm : TokenManager) : TokenManager := set_sessions tm ∅.

(** Replace the token manager of the running instance, if any. *)
Definition on_token_manager (f : TokenManager -> TokenManager) (w : WebApiState) : WebApiState :=
  match proxy_instance w with
  | Some i => set_instance w (Some (mkProxyServiceInstance (inst_config i)
                                      (f (inst_token_manager i)) (inst_server i)))
  | None => w
  end.

(** [clear_proxy_session_bindings] *)
Definition clear_proxy_session_bindings (w : WebApiState) : WebApiState * ApiResponse unit :=
  match proxy_instance w with
  | Some _ => (on_token_manager clear_all_sessions w, ApiOk ())
  | None => (w, ApiErr NotRunning)
  end.

(** [reload_proxy_accounts_internal]: [r] is the outcome of the read of
    the store by [load_accounts].  Its result is discarded: on success the
    pool is replaced, on failure the old pool stays in use. *)
Definition reload_proxy_accounts_internal (r : unit + string) (disk : AccountStore)
    (w : WebApiState) : WebApiState :=
  match proxy_instance w with
  | Some i =>
      match load_accounts (read_store r disk) (inst_token_manager i) with
      | inl (tm, _) => on_token_manager (fun _ => tm) w
      | inr _ => w
      end
  | None => w
  end.

(** [reload_proxy_accounts]: [r] as above. *)
Definition reload_proxy_accounts (r : unit + string) (disk : AccountStore) (w : WebApiState)
    : WebApiState * ApiResponse nat :=
  match proxy_instance w with
  | Some i =>
      match load_accounts (read_store r disk) (inst_token_manager i) with
      | inl (tm, n) => (on_token_manager (fun _ => tm) w, ApiOk n)
      | inr e => (w, ApiErr (OtherError ("重新加载账号失败: " +:+ e)))
      end
  | None => (w, ApiErr NotRunning)
  end.

(** The outcomes of the external calls [toggle_proxy_status] makes:
    [modules::account::get_data_dir], [std::fs::read_to_string],
    [serde_json::from_str], [std::fs::write], the clock
    [chrono::Utc::now().timestamp()], and the read of the store by the
    [load_accounts] of the reload that follows. *)
Record ToggleEnv := mkToggleEnv {
  te_data_dir : unit + string;
  te_read : unit + string;
  te_parse : unit + string;
  te_write : unit + string;
  te_now : Z;
  te_reload : unit + string;
}.

(** The fields of an account file after [toggle_proxy_status]'s edit, as
    the [Account] deserialised from it: with [enable] [proxy_disabled] is
    [false] and the reason and timestamp are JSON [null]; otherwise
    [proxy_disabled] is [true], the timestamp is [now] and the reason the
    given one or "用户手动禁用".  The other fields of the file are left as
    they are. *)
Definition toggle_fields (enable : bool) (reason : option string) (now : Z) (a : Account)
    : Account :=
  if enable
  then mkAccount (acc_disabled a) false None None (acc_quota a)
  else mkAccount (acc_disabled a) true (Some (default "用户手动禁用" reason)) (Some now)
         (acc_quota a).

(** [toggle_proxy_status].  The store holds each account file as the
    [Account] serde deserialises from it, which is all [load_accounts]
    reads of it: a JSON [null] and a missing key both give [None], and the
    pretty-printed JSON written back deserialises to the edited record.
    [disk !! id = None] is [!account_path.exists()].  A failed write is
    taken to leave the file as it was.  Only when the file was rewritten
    is the pool reloaded, and the handler answers success whatever the
    reload does. *)
Definition toggle_proxy_status (id : string) (enable : bool) (reason : option string)
    (env : ToggleEnv) (disk : AccountStore) (w : WebApiState)
    : AccountStore * WebApiState * ApiResponse unit :=
  let result : AccountStore + string :=
    match te_data_dir env with
    | inr e => inr e
    | inl _ =>
      match disk !! id with
      | None => inr ("账号文件不存在: " +:+ id)
      | Some a =>
        match te_read env with
        | inr e => inr ("读取账号文件失败: " +:+ e)
        | inl _ =>
          match te_parse env with
          | inr e => inr ("解析账号文件失败: " +:+ e)
          | inl _ =>
            let a' := toggle_fields enable reason (te_now env) a in
            match te_write env with
            | inr e => inr ("写入账号文件失败: " +:+ e)
            | inl _ => inl (<[id:=a']> disk)
            end
          end
        end
      end
    end in
  match result with
  | inl disk' => (disk', reload_proxy_accounts_internal (te_reload env) disk' w, ApiOk ())
  | inr e => (disk, w, ApiErr (OtherError e))
  end.

(* ================================================================== *)
(** ** Serialised operations on the service *)

(** The handlers above, and the dispatch engine's actions inside the
    running server, as one operation type.  Start and stop hold the write
    lock for their whole body and the others take the lock for reading, so
    their effects on [proxy_instance] are serialised. *)
Inductive Op :=
  | OpStart (env : StartEnv) (cfg : ProxyConfig)
  | OpStop
  | OpStatus
  | OpSaveConfig (saved : unit + string) (cfg : ProxyConfig)
  | OpUpdateMapping (cfg : ProxyConfig)
  | OpToggle (id : string) (enable : bool) (reason : option string) (env : ToggleEnv)
  | OpReload (r : unit + string)
  | OpClearSessions
  | OpSelect (exclude : gset string)
  | OpResolve (key : string)
  | OpMarkIneligible (id : string)
  | OpRecord (e : ProxyRequestLog)
  | OpClearLogs
  | OpSetMonitor (b : bool).

(** The process: the web state and the account files on disk. *)
Record World := mkWorld { w_state : WebApiState; w_disk : AccountStore }.

Definition on_monitor (f : ProxyMonitor -> ProxyMonitor) (w : WebApiState) : WebApiState :=
  match monitor w with
  | Some m => set_monitor w (Some (f m))
  | None => w
  end.

Definition step (o : Op) (W : World) : World :=
  let w := w_state W in
  let disk := w_disk W in
  match o with
  | OpStart env cfg => mkWorld (start_proxy_service env cfg disk w).1 disk
  | OpStop => mkWorld (stop_proxy_service w).1 disk
  | OpStatus => W
  | OpSaveConfig saved cfg => mkWorld (save_config saved cfg w).1 disk
  | OpUpdateMapping cfg => mkWorld (update_model_mapping cfg w).1 disk
  | OpToggle id en reason env =>
      let '(disk', w', _) := toggle_proxy_status id en reason env disk w in mkWorld w' disk'
  | OpReload r => mkWorld (reload_proxy_accounts r disk w).1 disk
  | OpClearSessions => mkWorld (clear_proxy_session_bindings w).1 disk
  | OpSelect ex =>
      mkWorld (on_token_manager (fun tm => match select_next ex tm with
                                           | Some (_, _, tm') => tm'
                                           | None => tm
                                           end) w) disk
  | OpResolve key =>
      mkWorld (on_token_manager (fun tm => match resolve key tm with
                                           | Some (_, tm') => tm'
                                           | None => tm
                                           end) w) disk
  | OpMarkIneligible id => mkWorld (on_token_manager (mark_ineligible id) w) disk
  | OpRecord e => mkWorld (on_monitor (record e) w) disk
  | OpClearLogs => mkWorld (clear_proxy_logs w).1 disk
  | OpSetMonitor b => mkWorld (set_proxy_monitor_enabled w b).1 disk
  end.

Fixpoint run (ops : list Op) (W : World) : World :=
  match ops with
  | [] => W
  | o :: ops => run ops (step o W)
  end.

(* ================================================================== *)
(** ** Rust string helpers over Unicode scalar values *)

(** An ASCII literal as a Rust string, for examples. *)
Definition rs (x : string) : rstr := map Ascii.N_of_ascii (String.list_ascii_of_string x).

(** [str::split(c)]: every piece, empty ones included. *)
Fixpoint split_on (c : N) (s : rstr) : list rstr :=
  match s with
  | [] => [[]]
  | x :: s' =>
      if (x =? c)%N then [] :: split_on c s'
      else match split_on c s' with
           | p :: ps => (x :: p) :: ps
           | [] => [[x]]
           end
  end.

Definition u32_max : N := 4294967295.

Definition is_ascii_digit (x : N) : bool := (48 <=? x)%N && (x <=? 57)%N.

(** The digit loop of [u32::from_str]: any non-digit or any overflow of
    the accumulated value fails. *)
Fixpoint parse_digits (acc : N) (ds : rstr) : option N :=
  match ds with
  | [] => Some acc
  | d :: ds =>
      if is_ascii_digit d then
        let v := (acc * 10 + (d - 48))%N in
        if (v <=? u32_max)%N then parse_digits v ds else None
      else None
  end.

(** [s.parse::<u32>()]: empty is an error, a lone sign is an error, one
    leading ['+'] is accepted ([43] is ['+']); a ['-'] is an invalid
    digit for an unsigned type. *)
Definition parse_u32 (s : rstr) : option N :=
  match s with
  | [] => None
  | [43%N] => None
  | 43%N :: ds => parse_digits 0 ds
  | ds => parse_digits 0 ds
  end.

(** The value of a decimal numeral, with no bound: the reference the
    parser is compared with. *)
Definition dec_value (acc : N) (ds : rstr) : N :=
  fold_left (fun v d => (v * 10 + (d - 48))%N) ds acc.

Module Version.

(** [parse_version]: [v.split('.').filter_map(|s| s.parse::<u32>().ok())]
    ([46] is ['.']). *)
Definition parse_version (v : rstr) : list N := omap parse_u32 (split_on 46 v).

(** The [for i in 0..3] loop of [compare_versions]. *)
Fixpoint cmp_loop (lp cp : list N) (i fuel : nat) : bool :=
  match fuel with
  | O => false
  | S fuel =>
      let l := default 0%N (lp !! i) in
      let c := default 0%N (cp !! i) in
      if (c <? l)%N then true
      else if (l <? c)%N then false
      else cmp_loop lp cp (S i) fuel
  end.

Definition compare_versions (latest current : rstr) : bool :=
  cmp_loop (parse_version latest) (parse_version current) 0 3.

(** [trim_start_matches('v')] ([118] is ['v']). *)
Fixpoint trim_start_v (s : rstr) : rstr :=
  match s with
  | 118%N :: s' => trim_start_v s'
  | _ => s
  end.

Record UpdateInfo := mkUpdateInfo {
  has_update : bool;
  latest_version : rstr;
  current_version : rstr;
  download_url : rstr;
}.

(** [check_for_updates], once the GitHub response is in: [resp] is a
    request, status or JSON error, or the [tag_name] and [html_url]
    strings of the release (absent when not a string). *)
Definition check_for_updates (current : rstr) (resp : (option rstr * option rstr) + string)
    : ApiResponse UpdateInfo :=
  match resp with
  | inr e => ApiErr (OtherError e)
  | inl (None, _) => ApiErr (OtherError "no tag_name")
  | inl (Some tag, url) =>
      let latest := trim_start_v tag in
      ApiOk (mkUpdateInfo (compare_versions latest current) (118%N :: latest)
               (118%N :: current)
               (default (rs "https://github.com/lbjlaq/Antigravity-Manager/releases") url))
  end.

(** The ordering the claim describes: the parsed components, padded with
    0, compared lexicographically on the first three positions. *)
Definition comp (p : list N) (i : nat) : N := default 0%N (p !! i).

Definition lex_gt3 (lp cp : list N) : Prop :=
  (comp cp 0 < comp lp 0)%N
  \/ (comp lp 0 = comp cp 0 /\ (comp cp 1 < comp lp 1)%N)
  \/ (comp lp 0 = comp cp 0 /\ comp lp 1 = comp cp 1 /\ (comp cp 2 < comp lp 2)%N).

End Version.

Module ZaiModels.

(** [serde_json::Value]; an object as its list of (key, value) entries. *)
Inductive Value :=
  | Null
  | Bool (b : bool)
  | Number (z : Z)
  | String (s : rstr)
  | Array (l : list Value)
  | Object (m : list (rstr * Value)).

(** [map.get(k)]: the entry under key [k]. *)
Fixpoint obj_get (k : rstr) (m : list (rstr * Value)) : option Value :=
  match m with
  | [] => None
  | (k', v) :: m => if decide (k = k') then Some v else obj_get k m
  end.

(** [v.as_str()] *)
Definition as_str (v : Value) : option rstr :=
  match v with String s => Some s | _ => None end.

(** [push_from_item] *)
Definition push_from_item (out : list rstr) (item : Value) : list rstr :=
  match item with
  | String s => out ++ [s]
  | Object m =>
      match obj_get (rs "id") m ≫= as_str with
      | Some id => out ++ [id]
      | None =>
          match obj_get (rs "name") m ≫= as_str with
          | Some name => out ++ [name]
          | None => out
          end
      end
  | _ => out
  end.

Definition push_all (out : list rstr) (arr : list Value) : list rstr :=
  fold_left push_from_item arr out.

(** [extract_model_ids] *)
Definition extract_model_ids (value : Value) : list rstr :=
  match value with
  | Array arr => push_all [] arr
  | Object m =>
      let out := match obj_get (rs "data") m with
                 | Some (Array arr) => push_all [] arr
                 | _ => []
                 end in
      match obj_get (rs "models") m with
      | Some (Array arr) => push_all out arr
      | Some other => push_from_item out other
      | None => out
      end
  | _ => []
  end.

(** [char::is_whitespace]: the Unicode White_Space property. *)
Definition is_whitespace (c : N) : bool :=
  ((9 <=? c) && (c <=? 13))%N || (c =? 32)%N || (c =? 133)%N || (c =? 160)%N
  || (c =? 5760)%N || ((8192 <=? c) && (c <=? 8202))%N || (c =? 8232)%N
  || (c =? 8233)%N || (c =? 8239)%N || (c =? 8287)%N || (c =? 12288)%N.

Fixpoint trim_start (s : rstr) : rstr :=
  match s with
  | c :: s' => if is_whitespace c then trim_start s' else s
  | [] => []
  end.

Definition trim_end (s : rstr) : rstr := reverse (trim_start (reverse s)).

(** [str::trim] *)
Definition trim (s : rstr) : rstr := trim_end (trim_start s).

Definition is_blank (s : rstr) : bool := bool_decide (trim s = []).

(** [String]'s [Ord]: lexicographic on bytes, which for UTF-8 is
    lexicographic on scalar values. *)
Fixpoint str_ltb (a b : rstr) : bool :=
  match a, b with
  | [], [] => false
  | [], _ :: _ => true
  | _ :: _, [] => false
  | x :: a, y :: b => (x <? y)%N || ((x =? y)%N && str_ltb a b)
  end.

Definition str_leb (a b : rstr) : bool := negb (str_ltb b a).

(** [Vec::sort]: the result of sorting by a total order is unique, so
    an insertion sort computes the same vector. *)
Fixpoint insert_sorted (x : rstr) (l : list rstr) : list rstr :=
  match l with
  | [] => [x]
  | y :: l' => if str_leb x y then x :: l else y :: insert_sorted x l'
  end.

Fixpoint sort (l : list rstr) : list rstr :=
  match l with
  | [] => []
  | x :: l' => insert_sorted x (sort l')
  end.

(** [Vec::dedup]: drops consecutive repeats. *)
Fixpoint dedup (l : list rstr) : list rstr :=
  match l with
  | x :: ((y :: _) as l') => if decide (x = y) then dedup l' else x :: dedup l'
  | _ => l
  end.

Record FetchZaiModelsRequest := mkFetchZaiModelsRequest {
  req_zai : ZaiConfig;
  req_upstream_proxy : UpstreamProxyConfig;
  req_request_timeout : N;
}.

(** [trim_end_matches('/')] on the reversed string ([47] is ['/']). *)
Fixpoint drop_slashes (s : rstr) : rstr :=
  match s with
  | 47%N :: s' => drop_slashes s'
  | _ => s
  end.

(** [join_base_url] *)
Definition join_base_url (base path : rstr) : rstr :=
  let base := reverse (drop_slashes (reverse base)) in
  let path := match path with 47%N :: _ => path | _ => 47%N :: path end in
  base ++ path.

(** The outcomes of the external steps of [fetch_zai_models]:
    [reqwest::Proxy::all], the client build, and the request, which
    yields an HTTP status and the body parsed as JSON ([None] when the
    body is not JSON). *)
Record FetchEnv := mkFetchEnv {
  fe_proxy_ok : bool;
  fe_client_ok : bool;
  fe_response : (N * option Value) + string;
}.

(** [fetch_zai_models]: the URLs it sends a request to, and the
    response. *)
Definition fetch_zai_models (env : FetchEnv) (req : FetchZaiModelsRequest)
    : list rstr * ApiResponse (list rstr) :=
  let zai := req_zai req in
  if is_blank (zai_base_url zai) then ([], ApiErr (OtherError "z.ai base_url is empty")) else
  if is_blank (zai_api_key zai) then ([], ApiErr (OtherError "z.ai api_key is not set")) else
  let url := join_base_url (zai_base_url zai) (rs "/v1/models") in
  let up := req_upstream_proxy req in
  if up_enabled up && negb (bool_decide (up_url up = [])) && negb (fe_proxy_ok env)
  then ([], ApiErr (OtherError "Invalid upstream proxy url")) else
  if negb (fe_client_ok env) then ([], ApiErr (OtherError "Failed to build HTTP client")) else
  match fe_response env with
  | inr e => ([url], ApiErr (OtherError e))
  | inl (status, body) =>
      if negb ((200 <=? status)%N && (status <? 300)%N)
      then ([url], ApiErr (OtherError "Upstream returned an error status")) else
      match body with
      | None => ([url], ApiErr (OtherError "Invalid JSON response"))
      | Some json =>
          let models := extract_model_ids json in
          let models := filter (fun s => is_blank s = false) models in
          ([url], ApiOk (dedup (sort models)))
      end
  end.

End ZaiModels.

(** The orders [sort] and [dedup] produce, as relations. *)
Definition str_le (a b : rstr) : Prop := ZaiModels.str_leb a b = true.
Definition str_lt (a b : rstr) : Prop := ZaiModels.str_ltb a b = true.

(** A z.ai model listing: an object whose [data] array holds repeated,
    blank and object-shaped entries. *)
Definition ex_models_json : ZaiModels.Value :=
  ZaiModels.Object
    [(rs "data", ZaiModels.Array
       [ZaiModels.String (rs "glm-4.6"); ZaiModels.String (rs " ");
        ZaiModels.Object [(rs "id", ZaiModels.String (rs "glm-4.5"))];
        ZaiModels.String (rs "glm-4.6")])].
Definition ex_fetch_env : ZaiModels.FetchEnv :=
  ZaiModels.mkFetchEnv true true (inl (200%N, Some ex_models_json)).
Definition ex_fetch_req (base key : rstr) : ZaiModels.FetchZaiModelsRequest :=
  ZaiModels.mkFetchZaiModelsRequest (mkZaiConfig true base key Pooled)
    (mkUpstreamProxyConfig false []) 30%N.

(* ================================================================== *)
(** ** Concrete inputs *)

Definition ex_account : Account := mkAccount false false None None (Some (mkQuotaData false)).
Definition ex_disk : AccountStore := {[ "acc-1" := ex_account ]}.
Definition ex_zai_off : ZaiConfig := mkZaiConfig false [] [] Off.
Definition ex_cfg : ProxyConfig :=
  mkProxyConfig 8045 true ∅ (mkUpstreamProxyConfig false []) (mkProxySecurityConfig false "")
    ex_zai_off default_sticky.
Definition ex_env : StartEnv := mkStartEnv (inl "/data") (inl ()) (inl ()).
Definition ex_status : ProxyStatus := mkProxyStatus true 8045 (format_base_url 8045) 1.
(** The account disabled for the proxy. *)
Definition ex_disk_off : AccountStore :=
  {[ "acc-1" := mkAccount false true (Some "quota") (Some 0%Z) None ]}.

(** Logging disabled. *)
Definition ex_cfg_nolog : ProxyConfig :=
  mkProxyConfig 8045 false ∅ (mkUpstreamProxyConfig false []) (mkProxySecurityConfig false "")
    ex_zai_off default_sticky.

Definition ex_logs (n : nat) : list ProxyRequestLog :=
  map (fun k => mkProxyRequestLog k "acc-1" 200) (seq 0 n).

(** A new configuration differing in mapping and security policy. *)
Definition ex_cfg_new : ProxyConfig :=
  mkProxyConfig 8045 true {[ "claude-sonnet" := "gemini-pro" ]} (mkUpstreamProxyConfig false [])
    (mkProxySecurityConfig true "sk-new") ex_zai_off default_sticky.

(** The four hot-reloadable slices of a running server and of a config. *)
Definition live_slices (s : AxumServer)
    : gmap string string * UpstreamProxyConfig * ProxySecurityConfig * ZaiConfig :=
  (srv_mapping s, srv_upstream s, srv_security s, srv_zai s).
Definition config_slices (c : ProxyConfig)
    : gmap string string * UpstreamProxyConfig * ProxySecurityConfig * ZaiConfig :=
  (pc_custom_mapping c, pc_upstream_proxy c, pc_security c, pc_zai c).

(* ================================================================== *)
(** ** Further handlers *)

(** [get_proxy_scheduling_config]: the token manager's sticky policy
    ([get_sticky_config]), or the default one when stopped. *)
Definition get_proxy_scheduling_config (w : WebApiState) : ApiResponse StickySessionConfig :=
  match proxy_instance w with
  | Some i => ApiOk (tm_sticky (inst_token_manager i))
  | None => ApiOk default_sticky
  end.

(** [update_proxy_scheduling_config] *)
Definition update_proxy_scheduling_config (config : StickySessionConfig) (w : WebApiState)
    : WebApiState * ApiResponse unit :=
  match proxy_instance w with
  | Some _ => (on_token_manager (update_sticky_config config) w, ApiOk ())
  | None => (w, ApiErr NotRunning)
  end.

(** [delete_account]: [r] is the outcome of [modules::delete_account],
    which removes the account's file from the store; on success the pool
    of a running service is reloaded, [rl] being the outcome of the read of
    the store by that reload. *)
Definition delete_account (r rl : unit + string) (account_id : string) (disk : AccountStore)
    (w : WebApiState) : AccountStore * WebApiState * ApiResponse unit :=
  match r with
  | inl _ =>
      let disk' := delete account_id disk in
      (disk', reload_proxy_accounts_internal rl disk' w, ApiOk ())
  | inr e => (disk, w, ApiErr (OtherError e))
  end.

(** [delete_accounts]: the batch form, through
    [modules::account::delete_accounts]. *)
Definition delete_accounts (r rl : unit + string) (account_ids : list string)
    (disk : AccountStore) (w : WebApiState) : AccountStore * WebApiState * ApiResponse unit :=
  match r with
  | inl _ =>
      let disk' := foldr delete disk account_ids in
      (disk', reload_proxy_accounts_internal rl disk' w, ApiOk ())
  | inr e => (disk, w, ApiErr (OtherError e))
  end.

Module Quotas.

(** An entry of [modules::list_accounts()]: the fields the loop reads. *)
Record ListedAccount := mkListedAccount {
  id : string;
  email : string;
  account : Account;
}.

Record RefreshStats := mkRefreshStats {
  total : nat;
  success : nat;
  failed : nat;
  details : list string;
}.

(** The loop state: [success], [failed], [details], and the ids whose
    quota was requested so far. *)
Definition LoopState : Type := nat * nat * list string * list string.

(** One iteration of the loop of [refresh_all_quotas]: [fetch] is the
    outcome of [fetch_quota_with_retry] for an account, [upd] that of
    [update_account_quota]. *)
Definition refresh_one (fetch : string -> QuotaData + string)
    (upd : string -> QuotaData -> unit + string) (st : LoopState) (a : ListedAccount)
    : LoopState :=
  let '(success, failed, details, fetched) := st in
  if acc_disabled (account a) then st else
  if quota_forbidden (account a) then st else
  match fetch (id a) with
  | inl quota =>
      match upd (id a) quota with
      | inl _ => (S success, failed, details, fetched ++ [id a])
      | inr _ => (success, S failed, details, fetched ++ [id a])
      end
  | inr e => (success, S failed, details ++ [email a +:+ ": " +:+ e], fetched ++ [id a])
  end.

(** [refresh_all_quotas]: the ids whose quota it requests, and the
    response. *)
Definition refresh_all_quotas (listed : list ListedAccount + string)
    (fetch : string -> QuotaData + string) (upd : string -> QuotaData -> unit + string)
    : list string * ApiResponse RefreshStats :=
  match listed with
  | inr e => ([], ApiErr (OtherError e))
  | inl accounts =>
      let '(success, failed, details, fetched) :=
        fold_left (refresh_one fetch upd) accounts (0, 0, [], []) in
      (fetched, ApiOk (mkRefreshStats (success + failed) success failed details))
  end.

(** The accounts the loop does not skip. *)
Definition refreshed (a : ListedAccount) : bool :=
  negb (acc_disabled (account a)) && negb (quota_forbidden (account a)).

Definition refreshed_accounts (accounts : list ListedAccount) : list ListedAccount :=
  filter (fun a => refreshed a = true) accounts.

(** The [details] line of an account whose fetch fails. *)
Definition failure_line (fetch : string -> QuotaData + string) (a : ListedAccount)
    : option string :=
  match fetch (id a) with
  | inr e => Some (email a +:+ ": " +:+ e)
  | inl _ => None
  end.

End Quotas.

(** The strings occurring anywhere in a JSON value. *)
Fixpoint json_strings (v : ZaiModels.Value) : list rstr :=
  match v with
  | ZaiModels.String s => [s]
  | ZaiModels.Array l =>
      (fix go (l : list ZaiModels.Value) : list rstr :=
         match l with [] => [] | x :: l => json_strings x ++ go l end) l
  | ZaiModels.Object m =>
      (fix go (m : list (rstr * ZaiModels.Value)) : list rstr :=
         match m with [] => [] | (_, x) :: m => json_strings x ++ go m end) m
  | _ => []
  end.

(** The log buffer of the monitor, when there is one. *)
Definition logs_of (w : WebApiState) : option (list ProxyRequestLog) :=
  match monitor w with Some m => Some (mon_logs m) | None => None end.

(** Operations that write the log buffer. *)
Definition is_log_op (o : Op) : bool :=
  match o with OpRecord _ | OpClearLogs => true | _ => false end.

Definition ex_log : ProxyRequestLog := mkProxyRequestLog 7 "acc-1" 200.

Definition ex_sticky : StickySessionConfig := mkStickySessionConfig false 60.

(** A running instance serving [ex_disk], for examples. *)
Definition ex_running : WebApiState := (start_proxy_service ex_env ex_cfg ex_disk WebApiState_new).1.

(** Two eligible accounts, and a running instance serving them. *)
Definition ex_disk2 : AccountStore := {[ "acc-1" := ex_account; "acc-2" := ex_account ]}.
Definition ex_running2 : WebApiState :=
  (start_proxy_service ex_env ex_cfg ex_disk2 WebApiState_new).1.

(** The instance serving [ex_disk2] after a request of session [s1],
    which binds [s1] to [acc-1]. *)
Definition ex_bound : WebApiState := w_state (run [OpResolve "s1"] (mkWorld ex_running2 ex_disk2)).

(** A toggle whose calls all succeed, one whose reload fails and one
    whose write fails. *)
Definition ex_tenv : ToggleEnv := mkToggleEnv (inl ()) (inl ()) (inl ()) (inl ()) 1700000000 (inl ()).

(** A proxy-disabled and an eligible account, and a running instance
    serving them (its pool holds [acc-2] only). *)
Definition ex_disk_mixed : AccountStore :=
  {[ "acc-1" := mkAccount false true (Some "quota") (Some 0%Z) None; "acc-2" := ex_account ]}.
Definition ex_running_mixed : WebApiState :=
  (start_proxy_service ex_env ex_cfg ex_disk_mixed WebApiState_new).1.

(** A placeholder instance, to read the pool of a state by [default]. *)
Definition ex_instance : ProxyServiceInstance :=
  mkProxyServiceInstance ex_cfg TokenManager_new (AxumServer_started 0 ex_cfg).

(* ================================================================== *)
(** * Properties *)

(* ------------------------------------------------------------------ *)
(** ** Lifecycle *)

(** Operations that never touch [proxy_instance]'s presence. *)
Definition is_start (o : Op) : bool := match o with OpStart _ _ => true | _ => false end.
Definition is_stop (o : Op) : bool := match o with OpStop => true | _ => false end.

Lemma on_server_instance f w :
  proxy_instance (on_server f w) = None <-> proxy_instance w = None.
Proof. unfold on_server. destruct (proxy_instance w) eqn:E; simpl; split; intros; congruence. Qed.

Lemma on_token_manager_instance f w :
  proxy_instance (on_token_manager f w) = None <-> proxy_instance w = None.
Proof. unfold on_token_manager. destruct (proxy_instance w) eqn:E; simpl; split; intros; congruence. Qed.

Lemma on_server_listeners f w : listeners (on_server f w) = listeners w.
Proof. unfold on_server. by destruct (proxy_instance w). Qed.

Lemma on_token_manager_listeners f w : listeners (on_token_manager f w) = listeners w.
Proof. unfold on_token_manager. by destruct (proxy_instance w). Qed.

Lemma on_monitor_instance f w : proxy_instance (on_monitor f w) = proxy_instance w.
Proof. unfold on_monitor. by destruct (monitor w). Qed.

Lemma on_monitor_listeners f w : listeners (on_monitor f w) = listeners w.
Proof. unfold on_monitor. by destruct (monitor w). Qed.

Lemma reload_internal_instance r disk w :
  proxy_instance (reload_proxy_accounts_internal r disk w) = None <-> proxy_instance w = None.
Proof.
  unfold reload_proxy_accounts_internal. destruct (proxy_instance w) eqn:E; [|done].
  destruct (load_accounts _ _) as [[??]|]; [rewrite on_token_manager_instance|]; rewrite E; done.
Qed.

Lemma reload_internal_listeners r disk w :
  listeners (reload_proxy_accounts_internal r disk w) = listeners w.
Proof.
  unfold reload_proxy_accounts_internal. destruct (proxy_instance w); [|done].
  destruct (load_accounts _ _) as [[??]|]; [apply on_token_manager_listeners|done].
Qed.

(** A toggle either fails and changes nothing, or rewrites the account's
    file and reloads the pool. *)
Lemma toggle_cases id en reason env disk w :
  (exists e, toggle_proxy_status id en reason env disk w = (disk, w, ApiErr e)) \/
  (exists a, te_data_dir env = inl () /\ disk !! id = Some a /\ te_read env = inl () /\
     te_parse env = inl () /\ te_write env = inl () /\
     toggle_proxy_status id en reason env disk w =
       (<[id:=toggle_fields en reason (te_now env) a]> disk,
        reload_proxy_accounts_internal (te_reload env)
          (<[id:=toggle_fields en reason (te_now env) a]> disk) w, ApiOk ())).
Proof.
  unfold toggle_proxy_status.
  destruct (te_data_dir env) as [[]|e]; [|left; eauto].
  destruct (disk !! id) as [a|] eqn:Ea; [|left; eauto].
  destruct (te_read env) as [[]|e]; [|left; eauto].
  destruct (te_parse env) as [[]|e]; [|left; eauto].
  destruct (te_write env) as [[]|e]; [|left; eauto].
  right. exists a. done.
Qed.

(** Every operation other than start and stop keeps the presence of the
    running instance and the number of listeners. *)
Lemma step_other_instance o W :
  is_start o = false -> is_stop o = false ->
  (proxy_instance (w_state (step o W)) = None <-> proxy_instance (w_state W) = None) /\
  listeners (w_state (step o W)) = listeners (w_state W).
Proof.
  intros Hs Ht. destruct W as [w disk].
  destruct o; simpl in *; try discriminate; try done.
  - unfold save_config. destruct saved; simpl;
      [rewrite on_server_instance, on_server_listeners|]; done.
  - rewrite on_server_instance, on_server_listeners. done.
  - destruct (toggle_cases id enable reason env disk w) as [[e ->]|(a & _ & _ & _ & _ & _ & ->)];
      simpl; [done|].
    rewrite reload_internal_instance, reload_internal_listeners. done.
  - unfold reload_proxy_accounts. destruct (proxy_instance w) eqn:E; simpl; [|done].
    destruct (load_accounts _ _) as [[??]|]; simpl; [|rewrite E; done].
    rewrite on_token_manager_instance, on_token_manager_listeners, E. done.
  - unfold clear_proxy_session_bindings. destruct (proxy_instance w) eqn:E; simpl; [|done].
    rewrite on_token_manager_instance, on_token_manager_listeners, E. done.
  - rewrite on_token_manager_instance, on_token_manager_listeners. done.
  - rewrite on_token_manager_instance, on_token_manager_listeners. done.
  - rewrite on_token_manager_instance, on_token_manager_listeners. done.
  - rewrite on_monitor_instance, on_monitor_listeners. done.
  - unfold clear_proxy_logs. destruct (monitor w); done.
  - unfold set_proxy_monitor_enabled. destruct (monitor w); done.
Qed.

Lemma run_no_stop_keeps_instance ops W :
  Forall (fun o => is_stop o = false) ops ->
  proxy_instance (w_state W) <> None -> proxy_instance (w_state (run ops W)) <> None.
Proof.
  revert W. induction ops as [|o ops IH]; intros W Hf HW; simpl; [done|].
  inversion Hf as [|? ? Ho Hops]; subst. apply IH; [done|].
  destruct (is_start o) eqn:Hs.
  - destruct o; try discriminate. destruct W as [w disk]. simpl in *.
    unfold start_proxy_service. destruct (proxy_instance w) eqn:E; simpl; congruence.
  - destruct (step_other_instance o W Hs Ho) as [Hi _]. rewrite Hi. done.
Qed.

Lemma run_no_start_keeps_stopped ops W :
  Forall (fun o => is_start o = false) ops ->
  proxy_instance (w_state W) = None -> proxy_instance (w_state (run ops W)) = None.
Proof.
  revert W. induction ops as [|o ops IH]; intros W Hf HW; simpl; [done|].
  inversion Hf as [|? ? Ho Hops]; subst. apply IH; [done|].
  destruct (is_stop o) eqn:Ht.
  - destruct o; try discriminate. destruct W as [w disk]. simpl in *.
    unfold stop_proxy_service. destruct (proxy_instance w) eqn:E; simpl; congruence.
  - destruct (step_other_instance o W Ho Ht) as [Hi _]. rewrite Hi. done.
Qed.

Lemma start_ok_running env cfg disk w w1 st :
  start_proxy_service env cfg disk w = (w1, ApiOk st) ->
  proxy_instance w = None /\ proxy_instance w1 <> None /\ listeners w1 = S (listeners w).
Proof.
  unfold start_proxy_service. destruct (proxy_instance w) eqn:E; [congruence|].
  destruct (env_data_dir env); [|congruence].
  destruct (load_accounts _ _) as [[tm n]|]; [|congruence].
  destruct (_ && _); [congruence|].
  destruct (env_bind env); [|congruence].
  intros [= <- _]. simpl. done.
Qed.

Lemma start_err_stopped env cfg disk w w1 e :
  proxy_instance w = None ->
  start_proxy_service env cfg disk w = (w1, ApiErr e) ->
  proxy_instance w1 = None /\ listeners w1 = listeners w.
Proof.
  unfold start_proxy_service. intros H. rewrite H.
  destruct (env_data_dir env); [|intros [= <- _]; simpl; auto].
  destruct (load_accounts _ _) as [[tm n]|]; [|intros [= <- _]; simpl; auto].
  destruct (_ && _); [intros [= <- _]; simpl; auto|].
  destruct (env_bind env); [congruence|intros [= <- _]; simpl; auto].
Qed.

Lemma stop_stops w : proxy_instance (stop_proxy_service w).1 = None.
Proof. unfold stop_proxy_service. by destruct (proxy_instance w) eqn:E. Qed.

(** C1: on a running service [start] fails with [AlreadyRunning] and
    leaves the state (and so the running instance) unchanged; on a stopped
    service [stop] fails with [NotRunning].  Hence a [start] after a
    successful [start], with no [stop] in between, fails with
    [AlreadyRunning], and a [stop] after a [stop], with no [start] in
    between, fails with [NotRunning]. *)
Theorem start_stop_guards :
  (forall env cfg disk w i, proxy_instance w = Some i ->
     start_proxy_service env cfg disk w = (w, ApiErr AlreadyRunning)) /\
  (forall w, proxy_instance w = None -> stop_proxy_service w = (w, ApiErr NotRunning)) /\
  (forall env1 cfg1 env2 cfg2 ops disk w w1 st,
     start_proxy_service env1 cfg1 disk w = (w1, ApiOk st) ->
     Forall (fun o => is_stop o = false) ops ->
     let W' := run ops (mkWorld w1 disk) in
     start_proxy_service env2 cfg2 (w_disk W') (w_state W') = (w_state W', ApiErr AlreadyRunning)) /\
  (forall ops W, Forall (fun o => is_start o = false) ops ->
     let W' := run ops (step OpStop W) in
     stop_proxy_service (w_state W') = (w_state W', ApiErr NotRunning)).
Proof.
  assert (Hstart : forall env cfg disk w i, proxy_instance w = Some i ->
            start_proxy_service env cfg disk w = (w, ApiErr AlreadyRunning)).
  { intros env cfg disk w i H. unfold start_proxy_service. rewrite H. done. }
  assert (Hstop : forall w, proxy_instance w = None ->
            stop_proxy_service w = (w, ApiErr NotRunning)).
  { intros w H. unfold stop_proxy_service. rewrite H. done. }
  split; [exact Hstart|]. split; [exact Hstop|]. split.
  - intros env1 cfg1 env2 cfg2 ops disk w w1 st Hs Hops W'.
    destruct (start_ok_running _ _ _ _ _ _ Hs) as (_ & Hw1 & _).
    pose proof (run_no_stop_keeps_instance ops (mkWorld w1 disk) Hops Hw1) as HW'.
    fold W' in HW'. destruct (proxy_instance (w_state W')) eqn:E; [|done].
    eapply Hstart. exact E.
  - intros ops W Hops W'. apply Hstop.
    apply run_no_start_keeps_stopped; [done|].
    destruct W as [w disk]. apply stop_stops.
Qed.

(** The number of listening sockets matches the presence of the
    instance. *)
Definition listeners_ok (w : WebApiState) : Prop :=
  listeners w = match proxy_instance w with Some _ => 1 | None => 0 end.

Lemma step_listeners_ok o W :
  listeners_ok (w_state W) -> listeners_ok (w_state (step o W)).
Proof.
  unfold listeners_ok. intros H.
  destruct (is_start o) eqn:Hs; [|destruct (is_stop o) eqn:Ht].
  - destruct o; try discriminate. destruct W as [w disk]. simpl in *.
    destruct (proxy_instance w) eqn:E.
    + unfold start_proxy_service. rewrite E. simpl. rewrite E. done.
    + destruct (start_proxy_service env cfg disk w) as [w1 [st|e]] eqn:Hr; simpl.
      * destruct (start_ok_running _ _ _ _ _ _ Hr) as (_ & Hw1 & Hl).
        destruct (proxy_instance w1); [|done]. lia.
      * destruct (start_err_stopped _ _ _ _ _ _ E Hr) as (Hw1 & Hl).
        rewrite Hw1, Hl. exact H.
  - destruct o; try discriminate. destruct W as [w disk]. simpl in *.
    unfold stop_proxy_service. destruct (proxy_instance w) eqn:E; simpl; [lia|]. rewrite E. exact H.
  - destruct (step_other_instance o W Hs Ht) as [Hi Hl]. rewrite Hl, H.
    destruct (proxy_instance (w_state W)), (proxy_instance (w_state (step o W))); naive_solver.
Qed.

Lemma run_listeners_ok ops W :
  listeners_ok (w_state W) -> listeners_ok (w_state (run ops W)).
Proof.
  revert W. induction ops as [|o ops IH]; intros W H; simpl; [done|].
  apply IH, step_listeners_ok, H.
Qed.

(** C2: from the initial state, after any sequence of operations the
    listening sockets held are exactly the running instance, so there is
    at most one; a successful [start] goes from no instance to one, a
    successful [stop] from one instance to none. *)
Theorem at_most_one_instance :
  (forall ops disk,
     let w := w_state (run ops (mkWorld WebApiState_new disk)) in
     listeners_ok w /\ listeners w <= 1) /\
  (forall env cfg disk w w1 st, start_proxy_service env cfg disk w = (w1, ApiOk st) ->
     proxy_instance w = None /\ proxy_instance w1 <> None) /\
  (forall w w1, stop_proxy_service w = (w1, ApiOk ()) ->
     proxy_instance w <> None /\ proxy_instance w1 = None).
Proof.
  split; [|split].
  - intros ops disk w.
    assert (H : listeners_ok w) by (apply run_listeners_ok; done).
    split; [done|]. rewrite H. destruct (proxy_instance w); lia.
  - intros env cfg disk w w1 st Hs.
    destruct (start_ok_running _ _ _ _ _ _ Hs) as (? & ? & _). done.
  - intros w w1. unfold stop_proxy_service.
    destruct (proxy_instance w); [|congruence]. intros [= <-]. done.
Qed.

Lemma filter_none {A} (P : A -> Prop) `{forall x, Decision (P x)} (l : list A) :
  (forall x, x ∈ l -> ~ P x) -> filter P l = [].
Proof.
  induction l as [|x l IH]; intros Hl; [done|].
  rewrite filter_cons_False by (apply Hl; left). apply IH.
  intros y Hy. apply Hl. by right.
Qed.

Lemma load_no_eligible disk tm :
  (forall id a, disk !! id = Some a -> eligible a = false) ->
  load_accounts (inl disk) tm = inl (mkTokenManager [] 0 (tm_sessions tm) (tm_sticky tm), 0).
Proof.
  intros H. unfold load_accounts.
  rewrite (filter_none _ (map_to_list disk)); [done|].
  intros [id a] Hin. apply elem_of_map_to_list in Hin. simpl.
  rewrite (H id a Hin). done.
Qed.

(** C4: on a stopped service whose account pool loads with no
    selectable account, [start] with the z.ai backend inactive (disabled
    or in mode [Off]) fails with [NoAccountsConfigured] whatever binding
    the socket would do, so no socket is bound and no instance is
    created; with the z.ai backend active it goes on to bind, and
    succeeds or fails as binding does. *)
Theorem start_empty_pool :
  forall d bind cfg disk w,
    proxy_instance w = None ->
    (forall id a, disk !! id = Some a -> eligible a = false) ->
    ((zai_enabled (pc_zai cfg) = false \/ zai_dispatch_mode (pc_zai cfg) = Off) ->
     exists w', (forall bind', start_proxy_service (mkStartEnv (inl d) (inl ()) bind') cfg disk w
                              = (w', ApiErr NoAccountsConfigured))
                /\ proxy_instance w' = None /\ listeners w' = listeners w) /\
    (zai_enabled (pc_zai cfg) = true -> zai_dispatch_mode (pc_zai cfg) <> Off ->
     match bind with
     | inl _ => exists w' st,
         start_proxy_service (mkStartEnv (inl d) (inl ()) bind) cfg disk w = (w', ApiOk st)
         /\ proxy_instance w' <> None /\ active_accounts st = 0 /\ listeners w' = S (listeners w)
     | inr e => (start_proxy_service (mkStartEnv (inl d) (inl ()) bind) cfg disk w).2
                = ApiErr (StartServerFailed e)
     end).
Proof.
  intros d bind cfg disk w Hw Hd. split.
  - intros Hz. eexists. split; [|split].
    + intros bind'. unfold start_proxy_service. rewrite Hw.
      cbn [env_data_dir env_read read_store]. rewrite load_no_eligible by done. simpl.
      destruct Hz as [-> | ->]; simpl; [done|]. by rewrite andb_false_r.
    + simpl. done.
    + simpl. done.
  - intros He Ho. unfold start_proxy_service. rewrite Hw.
    cbn [env_data_dir env_read read_store]. rewrite load_no_eligible by done. simpl. rewrite He.
    destruct (zai_dispatch_mode (pc_zai cfg)); try congruence; simpl;
      destruct bind; simpl; eauto 10.
Qed.

(** C8: with no running instance [get_proxy_status] answers
    [running = false], port 0, an empty [base_url] and no accounts; with
    no monitor [get_proxy_stats] answers the default stats,
    [get_proxy_logs] an empty list, and [clear_proxy_logs] and
    [set_proxy_monitor_enabled] succeed without changing anything; an
    absent [limit] is [limit = 100].  None of them answers an error. *)
Theorem telemetry_when_stopped :
  forall w,
    (proxy_instance w = None -> get_proxy_status w = ApiOk (mkProxyStatus false 0 "" 0)) /\
    (monitor w = None ->
       get_proxy_stats w = ApiOk ProxyStats_default /\
       (forall limit, get_proxy_logs w limit = ApiOk []) /\
       clear_proxy_logs w = (w, ApiOk ()) /\
       (forall b, set_proxy_monitor_enabled w b = (w, ApiOk ()))) /\
    get_proxy_logs w None = get_proxy_logs w (Some 100).
Proof.
  intros w. split; [|split].
  - intros H. unfold get_proxy_status. rewrite H. done.
  - intros H. unfold get_proxy_stats, get_proxy_logs, clear_proxy_logs,
      set_proxy_monitor_enabled. rewrite H. done.
  - unfold get_proxy_logs. destruct (monitor w); done.
Qed.

Lemma ex_start_ok :
  start_proxy_service ex_env ex_cfg ex_disk WebApiState_new
  = ((start_proxy_service ex_env ex_cfg ex_disk WebApiState_new).1, ApiOk ex_status).
Proof. vm_compute. reflexivity. Qed.

Lemma ex_disk_off_ineligible id a : ex_disk_off !! id = Some a -> eligible a = false.
Proof. unfold ex_disk_off. intros [_ <-]%lookup_singleton_Some. reflexivity. Qed.

Lemma start_stop_guards_witness :
  let W' := run [OpStatus]
              (mkWorld (start_proxy_service ex_env ex_cfg ex_disk WebApiState_new).1 ex_disk) in
  start_proxy_service ex_env ex_cfg (w_disk W') (w_state W') = (w_state W', ApiErr AlreadyRunning).
Proof.
  exact (proj1 (proj2 (proj2 start_stop_guards)) ex_env ex_cfg ex_env ex_cfg [OpStatus]
           ex_disk WebApiState_new _ _ ex_start_ok ltac:(repeat constructor)).
Defined.

Lemma at_most_one_instance_witness :
  proxy_instance WebApiState_new = None
  /\ proxy_instance (start_proxy_service ex_env ex_cfg ex_disk WebApiState_new).1 <> None.
Proof.
  exact (proj1 (proj2 at_most_one_instance) ex_env ex_cfg ex_disk WebApiState_new _ _ ex_start_ok).
Defined.

Lemma start_empty_pool_witness :
  exists w', (forall bind', start_proxy_service (mkStartEnv (inl "/data") (inl ()) bind') ex_cfg
                              ex_disk_off WebApiState_new = (w', ApiErr NoAccountsConfigured))
             /\ proxy_instance w' = None /\ listeners w' = listeners WebApiState_new.
Proof.
  apply (start_empty_pool "/data" (inl ()) ex_cfg ex_disk_off WebApiState_new eq_refl
           ex_disk_off_ineligible).
  left. reflexivity.
Defined.

Lemma telemetry_when_stopped_witness :
  get_proxy_status WebApiState_new = ApiOk (mkProxyStatus false 0 "" 0)
  /\ get_proxy_stats WebApiState_new = ApiOk ProxyStats_default.
Proof.
  destruct (telemetry_when_stopped WebApiState_new) as (H1 & H2 & _).
  split; [exact (H1 eq_refl)|exact (proj1 (H2 eq_refl))].
Defined.

(* ------------------------------------------------------------------ *)
(** ** Hot-reload *)

Lemma trace_steps_prefixes fs s x :
  x ∈ trace_steps fs s -> exists k, k <= length fs /\ x = apply_steps (take k fs) s.
Proof.
  revert s. induction fs as [|f fs IH]; intros s Hx; simpl in Hx.
  - apply list_elem_of_singleton in Hx. subst. exists 0. done.
  - apply elem_of_cons in Hx as [->|Hx].
    + exists 0. simpl. split; [lia|done].
    + destruct (IH (f s) Hx) as (k & Hk & ->). exists (S k). simpl. split; [lia|done].
Qed.

(** C3 (as the claim states it): a request racing [save_config] on the
    running server can observe the new mapping together with the old
    security policy, which is neither the old nor the new configuration. *)
Lemma save_config_mixed_view :
  ~ (forall s, s ∈ save_config_observed (inl ()) ex_cfg_new
                    (start_proxy_service ex_env ex_cfg ex_disk WebApiState_new).1 ->
               live_slices s = config_slices ex_cfg \/ live_slices s = config_slices ex_cfg_new).
Proof.
  intros H.
  set (s1 := update_mapping ex_cfg_new (AxumServer_started 0 ex_cfg)).
  assert (Hin : s1 ∈ save_config_observed (inl ()) ex_cfg_new
                    (start_proxy_service ex_env ex_cfg ex_disk WebApiState_new).1).
  { apply list_elem_of_In. vm_compute. right. left. reflexivity. }
  destruct (H s1 Hin) as [E|E].
  - apply (f_equal (fun t => t.1.1.1 !! "claude-sonnet")) in E. vm_compute in E. discriminate.
  - apply (f_equal (fun t => sec_auth_required t.1.2)) in E. vm_compute in E. discriminate.
Qed.

(** C3 (as the code does it): [save_config] replaces the four slices of a
    running server one at a time, in the order mapping, upstream proxy,
    security, z.ai.  A concurrent request observes one of these five
    states: each slice is the old or the new one in full, a later slice is
    new only if every earlier one is, and once [save_config] returns the
    live slices are those of the new configuration.  [update_model_mapping]
    replaces the mapping slice alone, in one step. *)
Theorem save_config_slicewise :
  forall c w i, proxy_instance w = Some i ->
    (forall s, s ∈ save_config_observed (inl ()) c w ->
       exists k, k <= 4 /\ s = apply_steps (take k (save_config_steps c)) (inst_server i)) /\
    (forall s, s ∈ save_config_observed (inl ()) c w ->
       (srv_mapping s = srv_mapping (inst_server i) \/ srv_mapping s = pc_custom_mapping c) /\
       (srv_upstream s = srv_upstream (inst_server i) \/ srv_upstream s = pc_upstream_proxy c) /\
       (srv_security s = srv_security (inst_server i) \/ srv_security s = pc_security c) /\
       (srv_zai s = srv_zai (inst_server i) \/ srv_zai s = pc_zai c)) /\
    (exists i', proxy_instance (save_config (inl ()) c w).1 = Some i' /\
                live_slices (inst_server i') = config_slices c) /\
    (exists i', proxy_instance (update_model_mapping c w).1 = Some i' /\
                live_slices (inst_server i') =
                  (pc_custom_mapping c, srv_upstream (inst_server i),
                   srv_security (inst_server i), srv_zai (inst_server i))).
Proof.
  intros c w i Hi.
  assert (Hpre : forall s, s ∈ save_config_observed (inl ()) c w ->
            exists k, k <= 4 /\ s = apply_steps (take k (save_config_steps c)) (inst_server i)).
  { intros s Hs. unfold save_config_observed in Hs. rewrite Hi in Hs.
    apply trace_steps_prefixes in Hs. exact Hs. }
  split; [exact Hpre|]. split; [|split].
  - intros s Hs. destruct (Hpre s Hs) as (k & Hk & ->).
    destruct k as [|[|[|[|[|k]]]]]; try lia; simpl; tauto.
  - unfold save_config, on_server. rewrite Hi. eexists. split; [reflexivity|]. done.
  - unfold update_model_mapping, on_server. rewrite Hi. eexists. split; [reflexivity|]. done.
Qed.

Lemma save_config_slicewise_witness :
  exists i', proxy_instance (save_config (inl ()) ex_cfg_new
                 (start_proxy_service ex_env ex_cfg ex_disk WebApiState_new).1).1 = Some i'
             /\ live_slices (inst_server i') = config_slices ex_cfg_new.
Proof.
  exact (proj1 (proj2 (proj2 (save_config_slicewise ex_cfg_new
           (start_proxy_service ex_env ex_cfg ex_disk WebApiState_new).1
           (mkProxyServiceInstance ex_cfg
              (mkTokenManager [("acc-1", ex_account)] 0 ∅ default_sticky)
              (AxumServer_started 0 ex_cfg))
           ltac:(vm_compute; reflexivity))))).
Defined.

(* ------------------------------------------------------------------ *)
(** ** Eligibility of selected accounts *)
















Lemma reload_internal_failed e disk w :
  reload_proxy_accounts_internal (inr e) disk w = w.
Proof. unfold reload_proxy_accounts_internal. by destruct (proxy_instance w). Qed.




(* ------------------------------------------------------------------ *)
(** ** Monitor buffer *)

Lemma take_app_take {A} (n : nat) (l k : list A) : take n (l ++ take n k) = take n (l ++ k).
Proof. rewrite !take_app, take_take. f_equal. f_equal. lia. Qed.

Lemma record_enabled e m :
  mon_enabled m = true ->
  mon_enabled (record e m) = true /\ mon_capacity (record e m) = mon_capacity m /\
  mon_logs (record e m) = take (mon_capacity m) (e :: mon_logs m).
Proof. unfold record. intros ->. done. Qed.

Lemma record_all_get_logs es m :
  mon_enabled m = true ->
  get_logs (mon_capacity m) (record_all es m) = take (mon_capacity m) (reverse es ++ mon_logs m).
Proof.
  unfold get_logs. revert m. induction es as [|e es IH]; intros m Hm; simpl; [done|].
  destruct (record_enabled e m Hm) as (He & Hc & Hl).
  rewrite <-Hc, (IH _ He), Hl, Hc, take_app_take, reverse_cons, <-app_assoc. done.
Qed.

Lemma record_all_disabled es m : mon_enabled m = false -> record_all es m = m.
Proof.
  revert m. induction es as [|e es IH]; intros m Hm; simpl; [done|].
  unfold record at 1. rewrite Hm. apply IH, Hm.
Qed.

Definition mon_ok (w : WebApiState) : Prop :=
  match monitor w with
  | Some m => mon_capacity m = 1000 /\ length (mon_logs m) <= 1000
  | None => True
  end.

Lemma on_server_monitor f w : monitor (on_server f w) = monitor w.
Proof. unfold on_server. by destruct (proxy_instance w). Qed.

Lemma on_token_manager_monitor f w : monitor (on_token_manager f w) = monitor w.
Proof. unfold on_token_manager. by destruct (proxy_instance w). Qed.

Lemma reload_internal_monitor r disk w :
  monitor (reload_proxy_accounts_internal r disk w) = monitor w.
Proof.
  unfold reload_proxy_accounts_internal. destruct (proxy_instance w); [|done].
  destruct (load_accounts _ _) as [[??]|]; [apply on_token_manager_monitor|done].
Qed.

Lemma step_mon_ok o W : mon_ok (w_state W) -> mon_ok (w_state (step o W)).
Proof.
  destruct W as [w disk]. unfold mon_ok. simpl. intros H. destruct o; simpl.
  - unfold start_proxy_service. destruct (proxy_instance w); [exact H|].
    assert (Hm : match monitor (set_monitor w (Some (set_enabled (pc_enable_logging cfg)
                   match monitor w with Some m => m | None => ProxyMonitor_new 1000 end))) with
                 | Some m => mon_capacity m = 1000 /\ length (mon_logs m) <= 1000
                 | None => True end).
    { simpl. destruct (monitor w); simpl; [exact H|]. split; [done|simpl; lia]. }
    destruct (env_data_dir env); [|exact Hm].
    destruct (load_accounts _ _) as [[tm n]|]; [|exact Hm].
    destruct (_ && _); [exact Hm|].
    destruct (env_bind env); exact Hm.
  - unfold stop_proxy_service. destruct (proxy_instance w); exact H.
  - exact H.
  - unfold save_config. destruct saved; simpl; [rewrite on_server_monitor|]; exact H.
  - unfold update_model_mapping. simpl. rewrite on_server_monitor. exact H.
  - destruct (toggle_cases id enable reason env disk w) as [[e ->]|(a & _ & _ & _ & _ & _ & ->)];
      simpl; [exact H|]. rewrite reload_internal_monitor. exact H.
  - unfold reload_proxy_accounts. destruct (proxy_instance w); simpl; [|exact H].
    destruct (load_accounts _ _) as [[??]|]; simpl; [|exact H].
    rewrite on_token_manager_monitor; exact H.
  - unfold clear_proxy_session_bindings. destruct (proxy_instance w); simpl;
      [rewrite on_token_manager_monitor|]; exact H.
  - rewrite on_token_manager_monitor. exact H.
  - rewrite on_token_manager_monitor. exact H.
  - rewrite on_token_manager_monitor. exact H.
  - unfold on_monitor. destruct (monitor w) as [m|] eqn:E; [|simpl; rewrite E; exact H]. simpl.
    destruct H as [Hc Hl]. unfold record. destruct (mon_enabled m); simpl; [|done].
    rewrite length_take, Hc. split; [done|lia].
  - unfold clear_proxy_logs. destruct (monitor w) as [m|] eqn:E; [|simpl; rewrite E; exact H]. simpl.
    destruct H as [Hc _]. split; [exact Hc|simpl; lia].
  - unfold set_proxy_monitor_enabled. destruct (monitor w) as [m|] eqn:E; [exact H|simpl; rewrite E; exact H].
Qed.

Lemma run_mon_ok ops W : mon_ok (w_state W) -> mon_ok (w_state (run ops W)).
Proof.
  revert W. induction ops as [|o ops IH]; intros W H; simpl; [done|].
  apply IH, step_mon_ok, H.
Qed.

Lemma start_monitor env cfg disk w :
  proxy_instance w = None ->
  monitor (start_proxy_service env cfg disk w).1
    = Some (set_enabled (pc_enable_logging cfg)
              match monitor w with Some m => m | None => ProxyMonitor_new 1000 end).
Proof.
  intros H. unfold start_proxy_service. rewrite H.
  destruct (env_data_dir env); [|reflexivity].
  destruct (load_accounts _ _) as [[tm n]|]; [|reflexivity].
  destruct (Nat.eqb n 0 && _); [reflexivity|].
  destruct (env_bind env); reflexivity.
Qed.

(** C6 (as the claim states it): the monitor [start] creates follows
    [config.enable_logging]; with logging off, 1001 [record] calls leave
    the buffer empty, so [get_logs(1000)] is not the 1000 latest entries. *)
Lemma monitor_logging_off :
  match monitor (start_proxy_service ex_env ex_cfg_nolog ex_disk WebApiState_new).1 with
  | Some m => get_logs (mon_capacity m) (record_all (ex_logs 1001) m)
              <> reverse (drop (1001 - mon_capacity m) (ex_logs 1001))
  | None => False
  end.
Proof. vm_compute. discriminate. Qed.

(** C6 (as the code does it): while the monitor is enabled, after a
    sequence of [record] calls at least as long as the capacity,
    [get_logs(capacity)] is exactly the [capacity] latest entries, most
    recent first (in general, the first [capacity] of the new entries,
    newest first, followed by the older buffer); while it is disabled
    [record] changes nothing.  A start on a stopped service, whatever its
    outcome, leaves a monitor enabled exactly when [config.enable_logging]
    is set, created empty with capacity 1000 when there was none.  In every
    reachable state the monitor, once created by [start], has capacity
    1000 and holds at most 1000 entries. *)
Theorem monitor_keeps_latest :
  (forall m es, mon_enabled m = true -> mon_capacity m <= length es ->
     get_logs (mon_capacity m) (record_all es m)
     = reverse (drop (length es - mon_capacity m) es)) /\
  (forall m es, mon_enabled m = true ->
     get_logs (mon_capacity m) (record_all es m) = take (mon_capacity m) (reverse es ++ mon_logs m)) /\
  (forall m es, mon_enabled m = false -> record_all es m = m) /\
  (forall ops disk, match monitor (w_state (run ops (mkWorld WebApiState_new disk))) with
     | Some m => mon_capacity m = 1000 /\ length (mon_logs m) <= 1000
     | None => True
     end) /\
  (forall env cfg disk w, proxy_instance w = None ->
     exists m, monitor (start_proxy_service env cfg disk w).1 = Some m /\
       mon_enabled m = pc_enable_logging cfg /\
       (monitor w = None -> mon_capacity m = 1000 /\ mon_logs m = [])).
Proof.
  split; [|split; [|split; [|split]]].
  - intros m es Hm Hlen. rewrite record_all_get_logs by done.
    rewrite take_app_le by (rewrite length_reverse; lia). apply take_reverse.
  - intros m es. apply record_all_get_logs.
  - intros m es. apply record_all_disabled.
  - intros ops disk. apply (run_mon_ok ops (mkWorld WebApiState_new disk) I).
  - intros env cfg disk w H. rewrite (start_monitor _ _ _ _ H).
    eexists. split; [reflexivity|]. split; [reflexivity|].
    intros ->. split; reflexivity.
Qed.

Lemma monitor_keeps_latest_witness :
  get_logs 1000 (record_all (ex_logs 1001) (ProxyMonitor_new 1000))
  = reverse (drop (length (ex_logs 1001) - 1000) (ex_logs 1001)) /\
  exists m, monitor (start_proxy_service ex_env ex_cfg_nolog ex_disk WebApiState_new).1 = Some m /\
    mon_enabled m = false /\ (monitor WebApiState_new = None -> mon_capacity m = 1000 /\ mon_logs m = []).
Proof.
  split.
  - apply (proj1 monitor_keeps_latest (ProxyMonitor_new 1000) (ex_logs 1001)); vm_compute.
    + reflexivity.
    + lia.
  - exact (proj2 (proj2 (proj2 (proj2 monitor_keeps_latest))) ex_env ex_cfg_nolog ex_disk
             WebApiState_new eq_refl).
Defined.

(* ------------------------------------------------------------------ *)
(** ** Sticky sessions *)

Lemma resolve_no_binding key tm :
  tm_sessions tm !! key = None -> resolve key tm = fresh_select key tm.
Proof. unfold resolve. intros ->. by destruct (sticky_enabled _). Qed.

(** C7: a successful [clear_proxy_session_bindings] empties the session
    table of the running token manager and keeps its pool, cursor and
    policy; afterwards [resolve] for any session key performs a fresh
    selection, so the account it returns is the one the round-robin
    [select_next] picks. *)
Theorem clear_sessions_fresh :
  forall w w', clear_proxy_session_bindings w = (w', ApiOk ()) ->
    exists i i', proxy_instance w = Some i /\ proxy_instance w' = Some i' /\
      tm_sessions (inst_token_manager i') = ∅ /\
      tm_pool (inst_token_manager i') = tm_pool (inst_token_manager i) /\
      tm_cursor (inst_token_manager i') = tm_cursor (inst_token_manager i) /\
      tm_sticky (inst_token_manager i') = tm_sticky (inst_token_manager i) /\
      forall key,
        resolve key (inst_token_manager i') = fresh_select key (inst_token_manager i') /\
        (forall id tm'', resolve key (inst_token_manager i') = Some (id, tm'') ->
           exists a tm3, select_next ∅ (inst_token_manager i') = Some (id, a, tm3)).
Proof.
  intros w w'. unfold clear_proxy_session_bindings.
  destruct (proxy_instance w) as [i|] eqn:E; [|discriminate].
  intros [= <-]. unfold on_token_manager. rewrite E.
  eexists i, _. split; [done|]. split; [reflexivity|]. simpl.
  split; [done|]. split; [done|]. split; [done|]. split; [done|].
  intros key. rewrite resolve_no_binding by (simpl; apply lookup_empty).
  split; [done|]. intros id tm''. unfold fresh_select.
  destruct (select_next ∅ _) as [[[id0 a] tm3]|] eqn:Hs; [|discriminate].
  destruct (sticky_enabled _); intros [= <- _]; eauto.
Qed.


Lemma ex_clear_ok :
  clear_proxy_session_bindings ex_bound = ((clear_proxy_session_bindings ex_bound).1, ApiOk ()).
Proof. vm_compute. reflexivity. Qed.

Lemma clear_sessions_fresh_witness :
  (exists i, proxy_instance ex_bound = Some i /\
     tm_sessions (inst_token_manager i) !! "s1" = Some "acc-1") /\
  exists i i', proxy_instance ex_bound = Some i /\
    proxy_instance (clear_proxy_session_bindings ex_bound).1 = Some i' /\
    tm_sessions (inst_token_manager i') = ∅ /\
    exists tm'', resolve "s1" (inst_token_manager i') = Some ("acc-2", tm'').
Proof.
  split; [vm_compute; eexists; split; reflexivity|].
  destruct (clear_sessions_fresh _ _ ex_clear_ok) as (i & i' & H1 & H2 & H3 & _ & _ & _ & Hr).
  exists i, i'. split; [exact H1|]. split; [exact H2|]. split; [exact H3|].
  rewrite (proj1 (Hr "s1")). vm_compute in H2. injection H2 as <-.
  vm_compute. eexists. reflexivity.
Defined.

(* ------------------------------------------------------------------ *)
(** ** Version comparison *)

Example parse_version_skips : Version.parse_version (rs "1.x.3") = [1%N; 3%N].
Proof. reflexivity. Qed.

Example parse_version_plus_overflow :
  Version.parse_version (rs "+1.-1..4294967296.4294967295") = [1%N; 4294967295%N].
Proof. reflexivity. Qed.

Example compare_versions_minor : Version.compare_versions (rs "1.10.0") (rs "1.9.9") = true.
Proof. reflexivity. Qed.

Example compare_versions_padding : Version.compare_versions (rs "1.0") (rs "1.0.0") = false.
Proof. reflexivity. Qed.

Lemma cmp_loop_lex lp cp :
  Version.cmp_loop lp cp 0 3 = true <-> Version.lex_gt3 lp cp.
Proof.
  unfold Version.lex_gt3, Version.comp. cbn [Version.cmp_loop].
  set (l0 := default 0%N (lp !! 0)); set (l1 := default 0%N (lp !! 1));
  set (l2 := default 0%N (lp !! 2)); set (c0 := default 0%N (cp !! 0));
  set (c1 := default 0%N (cp !! 1)); set (c2 := default 0%N (cp !! 2)).
  destruct (N.ltb_spec c0 l0), (N.ltb_spec l0 c0), (N.ltb_spec c1 l1), (N.ltb_spec l1 c1),
    (N.ltb_spec c2 l2), (N.ltb_spec l2 c2);
    split; intros; first [reflexivity | discriminate | lia].
Qed.

(** C9: [compare_versions latest current] is [true] exactly when the
    components of [latest] that parse as [u32] (others skipped), padded
    with 0, are lexicographically greater on the first three positions
    than those of [current]; [check_for_updates] reports [has_update]
    exactly under that ordering of the tag (leading ['v']s removed)
    against the current version. *)
Theorem compare_versions_lex :
  (forall latest current,
     Version.compare_versions latest current = true <->
     Version.lex_gt3 (Version.parse_version latest) (Version.parse_version current)) /\
  (forall current tag url,
     exists info, Version.check_for_updates current (inl (Some tag, url)) = ApiOk info /\
       (Version.has_update info = true <->
        Version.lex_gt3 (Version.parse_version (Version.trim_start_v tag))
                        (Version.parse_version current))).
Proof.
  split.
  - intros latest current. apply cmp_loop_lex.
  - intros current tag url. eexists. split; [reflexivity|]. apply cmp_loop_lex.
Qed.

(* ------------------------------------------------------------------ *)
(** ** Model list of [fetch_zai_models] *)

Lemma str_ltb_irrefl a : ZaiModels.str_ltb a a = false.
Proof.
  induction a as [|x a IH]; simpl; [done|].
  rewrite N.ltb_irrefl, N.eqb_refl, IH. done.
Qed.

Lemma str_ltb_trans a b c :
  ZaiModels.str_ltb a b = true -> ZaiModels.str_ltb b c = true -> ZaiModels.str_ltb a c = true.
Proof.
  revert b c. induction a as [|x a IH]; intros [|y b] [|z c]; simpl; try done.
  rewrite !orb_true_iff, !andb_true_iff, !N.ltb_lt, !N.eqb_eq.
  intros [Hxy|[-> Hab]] [Hyz|[-> Hbc]]; eauto with lia.
Qed.

Lemma str_ltb_total a b :
  a <> b -> ZaiModels.str_ltb a b = true \/ ZaiModels.str_ltb b a = true.
Proof.
  revert b. induction a as [|x a IH]; intros [|y b] Hne; simpl;
    try solve [congruence | left; done | right; done].
  rewrite !orb_true_iff, !andb_true_iff, !N.ltb_lt, !N.eqb_eq.
  destruct (N.lt_trichotomy x y) as [?|[->|?]]; [tauto| |tauto].
  destruct (IH b) as [?|?]; [congruence|tauto|tauto].
Qed.

Lemma str_ltb_asym a b :
  ZaiModels.str_ltb a b = true -> ZaiModels.str_ltb b a = false.
Proof.
  intros H. destruct (ZaiModels.str_ltb b a) eqn:E; [|done].
  pose proof (str_ltb_trans _ _ _ H E). rewrite str_ltb_irrefl in *. done.
Qed.

Lemma str_leb_false a b : ZaiModels.str_leb a b = false -> str_le b a.
Proof.
  unfold str_le, ZaiModels.str_leb. intros H. apply negb_false_iff in H.
  rewrite str_ltb_asym; done.
Qed.

Lemma insert_sorted_hd z x l :
  HdRel str_le z l -> str_le z x -> HdRel str_le z (ZaiModels.insert_sorted x l).
Proof.
  intros Hd Hzx. destruct l as [|y l]; simpl; [by constructor|].
  destruct (ZaiModels.str_leb x y); constructor; [done|]. by inversion Hd.
Qed.

Lemma insert_sorted_sorted x l :
  Sorted str_le l -> Sorted str_le (ZaiModels.insert_sorted x l).
Proof.
  induction l as [|y l IH]; intros Hs; simpl; [by repeat constructor|].
  destruct (ZaiModels.str_leb x y) eqn:E.
  - constructor; [done|]. by constructor.
  - inversion Hs as [|? ? Hl Hd]; subst. constructor; [by apply IH|].
    apply insert_sorted_hd; [done|]. by apply str_leb_false.
Qed.

Lemma sort_sorted l : Sorted str_le (ZaiModels.sort l).
Proof. induction l; simpl; [constructor|]. by apply insert_sorted_sorted. Qed.

Lemma insert_sorted_Forall (P : rstr -> Prop) x l :
  P x -> Forall P l -> Forall P (ZaiModels.insert_sorted x l).
Proof.
  intros Hx Hl. induction Hl as [|y l Hy Hl IH]; simpl; [by constructor|].
  destruct (ZaiModels.str_leb x y); constructor; try done. by constructor.
Qed.

Lemma sort_Forall (P : rstr -> Prop) l : Forall P l -> Forall P (ZaiModels.sort l).
Proof.
  induction 1; simpl; [constructor|]. by apply insert_sorted_Forall.
Qed.

Lemma dedup_head x l : exists t, ZaiModels.dedup (x :: l) = x :: t.
Proof.
  revert x. induction l as [|y l IH]; intros x; simpl; [by eexists|].
  case_decide as Hxy.
  - subst y. apply IH.
  - by eexists.
Qed.

Lemma dedup_Forall (P : rstr -> Prop) l : Forall P l -> Forall P (ZaiModels.dedup l).
Proof.
  induction 1 as [|x l Hx Hl IH]; simpl; [constructor|].
  destruct l as [|y l]; [by constructor|].
  case_decide; [done|]. by constructor.
Qed.

Lemma dedup_sorted l : Sorted str_le l -> Sorted str_lt (ZaiModels.dedup l).
Proof.
  induction l as [|x l IH]; intros Hs; simpl; [constructor|].
  destruct l as [|y l]; [by repeat constructor|].
  inversion Hs as [|? ? Hl Hd]; subst.
  case_decide as Hxy; [by apply IH|].
  destruct (dedup_head y l) as [t Ht]. rewrite Ht. rewrite Ht in IH.
  constructor; [by apply IH|]. constructor.
  inversion Hd as [|? ? Hle]; subst. unfold str_lt.
  unfold str_le, ZaiModels.str_leb in Hle. apply negb_true_iff in Hle.
  destruct (str_ltb_total x y Hxy) as [?|?]; congruence.
Qed.

Lemma strongly_sorted_NoDup l : StronglySorted str_lt l -> NoDup l.
Proof.
  induction 1 as [|x l _ IH Hall]; constructor; [|done].
  intros Hin. rewrite Forall_forall in Hall. specialize (Hall x Hin).
  unfold str_lt in Hall. rewrite str_ltb_irrefl in Hall. done.
Qed.

Lemma trim_start_ws s :
  Forall (fun c => ZaiModels.is_whitespace c = true) s -> ZaiModels.trim_start s = [].
Proof. induction 1 as [|c s Hc _ IH]; simpl; [done|]. by rewrite Hc. Qed.

Lemma not_blank_not_ws s :
  ZaiModels.is_blank s = false -> ~ Forall (fun c => ZaiModels.is_whitespace c = true) s.
Proof.
  unfold ZaiModels.is_blank, ZaiModels.trim. intros Hb Hws.
  rewrite trim_start_ws in Hb by done. done.
Qed.

(** C10: when the z.ai [base_url] or [api_key] is blank after trimming,
    [fetch_zai_models] fails before building a client, having sent no
    request; and whatever JSON value the upstream returns, a successful
    response is a list strictly ascending in [String]'s order (hence
    sorted and without duplicates) whose entries are neither empty nor
    whitespace-only. *)
Theorem fetch_zai_models_guard_and_shape :
  (forall env req,
     ZaiModels.is_blank (zai_base_url (ZaiModels.req_zai req)) = true \/
     ZaiModels.is_blank (zai_api_key (ZaiModels.req_zai req)) = true ->
     exists e, ZaiModels.fetch_zai_models env req = ([], ApiErr e)) /\
  (forall env req urls models,
     ZaiModels.fetch_zai_models env req = (urls, ApiOk models) ->
     StronglySorted (fun a b => ZaiModels.str_ltb a b = true) models /\
     NoDup models /\
     Forall (fun s => s <> [] /\
                      ~ Forall (fun c => ZaiModels.is_whitespace c = true) s) models).
Proof.
  split.
  - intros env req [Hb|Hb]; unfold ZaiModels.fetch_zai_models; rewrite Hb; [by eexists|].
    destruct (ZaiModels.is_blank (zai_base_url (ZaiModels.req_zai req))); by eexists.
  - intros env req urls models. unfold ZaiModels.fetch_zai_models.
    repeat case_match; try discriminate. intros [= <- <-].
    set (l := filter _ _).
    assert (Hf : Forall (fun s => ZaiModels.is_blank s = false) l).
    { apply Forall_forall. intros s Hs. by apply list_elem_of_filter in Hs as [? _]. }
    assert (Hss : StronglySorted str_lt (ZaiModels.dedup (ZaiModels.sort l))).
    { apply Sorted_StronglySorted; [intros a b c; apply str_ltb_trans|].
      apply dedup_sorted, sort_sorted. }
    split; [exact Hss|]. split; [by apply strongly_sorted_NoDup|].
    apply dedup_Forall, sort_Forall. eapply Forall_impl; [exact Hf|].
    intros s Hs. pose proof (not_blank_not_ws s Hs) as Hn. split; [|done].
    intros ->. apply Hn. constructor.
Qed.

Lemma fetch_zai_models_guard_and_shape_witness :
  (exists e, ZaiModels.fetch_zai_models ex_fetch_env
               (ex_fetch_req (rs "https://api.z.ai/api/anthropic") (rs " ")) = ([], ApiErr e)) /\
  (ZaiModels.fetch_zai_models ex_fetch_env
     (ex_fetch_req (rs "https://api.z.ai/api/anthropic/") (rs "sk-zai"))
   = ([rs "https://api.z.ai/api/anthropic/v1/models"],
      ApiOk [rs "glm-4.5"; rs "glm-4.6"]) /\
   StronglySorted (fun a b => ZaiModels.str_ltb a b = true) [rs "glm-4.5"; rs "glm-4.6"]).
Proof.
  split.
  - apply (proj1 fetch_zai_models_guard_and_shape). right. vm_compute. reflexivity.
  - assert (H : ZaiModels.fetch_zai_models ex_fetch_env
                  (ex_fetch_req (rs "https://api.z.ai/api/anthropic/") (rs "sk-zai"))
                = ([rs "https://api.z.ai/api/anthropic/v1/models"],
                   ApiOk [rs "glm-4.5"; rs "glm-4.6"])) by (vm_compute; reflexivity).
    split; [exact H|].
    exact (proj1 (proj2 fetch_zai_models_guard_and_shape _ _ _ _ H)).
Defined.

(* ================================================================== *)
(** * Further properties of the code *)

(* ------------------------------------------------------------------ *)
(** ** Version strings *)

Lemma parse_digits_bound acc ds n :
  (acc <= u32_max)%N -> parse_digits acc ds = Some n -> (n <= u32_max)%N.
Proof.
  revert acc. induction ds as [|d ds IH]; intros acc Hacc; simpl.
  - intros [= <-]. done.
  - destruct (is_ascii_digit d); [|discriminate].
    destruct (N.leb_spec (acc * 10 + (d - 48)) u32_max); [|discriminate].
    apply IH. done.
Qed.

Lemma dec_value_ge acc ds : (acc <= dec_value acc ds)%N.
Proof.
  unfold dec_value. revert acc. induction ds as [|d ds IH]; intros acc; simpl; [lia|].
  specialize (IH (acc * 10 + (d - 48))%N). lia.
Qed.

Lemma parse_digits_value acc ds :
  Forall (fun d => is_ascii_digit d = true) ds -> (acc <= u32_max)%N ->
  parse_digits acc ds = if (dec_value acc ds <=? u32_max)%N then Some (dec_value acc ds) else None.
Proof.
  intros Hds. revert acc. induction Hds as [|d ds Hd Hds IH]; intros acc Hacc; simpl.
  - unfold dec_value. simpl. by destruct (N.leb_spec acc u32_max); [|lia].
  - rewrite Hd. fold (dec_value (acc * 10 + (d - 48))%N ds).
    destruct (N.leb_spec (acc * 10 + (d - 48)) u32_max) as [Hv|Hv]; [by apply IH|].
    pose proof (dec_value_ge (acc * 10 + (d - 48))%N ds).
    by destruct (N.leb_spec (dec_value (acc * 10 + (d - 48)) ds) u32_max); [lia|].
Qed.

Lemma parse_digits_sound acc ds n :
  parse_digits acc ds = Some n ->
  Forall (fun d => is_ascii_digit d = true) ds /\ dec_value acc ds = n.
Proof.
  revert acc. induction ds as [|d ds IH]; intros acc; simpl.
  - intros [= <-]. done.
  - destruct (is_ascii_digit d) eqn:Hd; [|discriminate].
    destruct (_ <=? _)%N; [|discriminate].
    intros H. destruct (IH _ H) as [Hf Hv]. split; [by constructor|exact Hv].
Qed.

Lemma parse_u32_cons c s :
  parse_u32 (c :: s) =
  if (c =? 43)%N then match s with [] => None | _ => parse_digits 0 s end
  else parse_digits 0 (c :: s).
Proof.
  destruct (N.eqb_spec c 43) as [->|Hc]; [by destruct s|].
  unfold parse_u32. destruct c as [|p]; [done|].
  repeat (destruct p; try done); by destruct Hc.
Qed.

(** [s.parse::<u32>()] as used by [compare_versions] accepts exactly the
    non-empty strings of ASCII digits, optionally after one ['+'], whose
    decimal value is at most [u32::MAX], and yields that value: a
    component that overflows is rejected, not wrapped. *)
Theorem parse_u32_bounded :
  (forall ds, ds <> [] -> Forall (fun d => is_ascii_digit d = true) ds ->
     parse_u32 ds = (if (dec_value 0 ds <=? u32_max)%N then Some (dec_value 0 ds) else None) /\
     parse_u32 (43%N :: ds) = parse_u32 ds) /\
  (forall s n, parse_u32 s = Some n ->
     (n <= u32_max)%N /\
     exists ds, (s = ds \/ s = 43%N :: ds) /\ ds <> [] /\
       Forall (fun d => is_ascii_digit d = true) ds /\ dec_value 0 ds = n).
Proof.
  assert (H0 : (0 <= u32_max)%N) by (unfold u32_max; lia).
  split.
  - intros ds Hne Hds. destruct ds as [|c ds]; [done|].
    assert (Hc : (c =? 43)%N = false).
    { inversion Hds as [|? ? Hd _]; subst. unfold is_ascii_digit in Hd.
      apply N.eqb_neq. intros ->. discriminate. }
    rewrite !parse_u32_cons, Hc. split; [|reflexivity].
    by apply parse_digits_value.
  - intros s n Hs. destruct s as [|c s]; [discriminate|].
    rewrite parse_u32_cons in Hs.
    destruct (N.eqb_spec c 43) as [->|Hc].
    + destruct s as [|c' s]; [discriminate|].
      split; [exact (parse_digits_bound _ _ _ H0 Hs)|].
      destruct (parse_digits_sound _ _ _ Hs) as [Hf Hv].
      exists (c' :: s). split; [right; reflexivity|]. done.
    + split; [exact (parse_digits_bound _ _ _ H0 Hs)|].
      destruct (parse_digits_sound _ _ _ Hs) as [Hf Hv].
      exists (c :: s). split; [left; reflexivity|]. done.
Qed.

Lemma parse_u32_bounded_witness :
  parse_u32 (rs "4294967296") = None /\ parse_u32 (rs "+4294967295") = Some 4294967295%N.
Proof.
  destruct (proj1 parse_u32_bounded (rs "4294967296")) as [H1 _];
    [discriminate|repeat constructor|].
  destruct (proj1 parse_u32_bounded (rs "4294967295")) as [H2 H3];
    [discriminate|repeat constructor|].
  split.
  - rewrite H1. reflexivity.
  - change (rs "+4294967295") with (43%N :: rs "4294967295"). rewrite H3, H2. reflexivity.
Defined.

(** [compare_versions] is a strict order: a version is never newer than
    itself, and "newer than" is transitive. *)
Theorem compare_versions_strict_order :
  (forall v, Version.compare_versions v v = false) /\
  (forall a b c, Version.compare_versions a b = true -> Version.compare_versions b c = true ->
                 Version.compare_versions a c = true).
Proof.
  split.
  - intros v. destruct (Version.compare_versions v v) eqn:E; [|done].
    unfold Version.compare_versions in E. apply cmp_loop_lex in E.
    unfold Version.lex_gt3 in E. lia.
  - intros a b c. unfold Version.compare_versions. rewrite !cmp_loop_lex.
    unfold Version.lex_gt3. lia.
Qed.

Lemma compare_versions_strict_order_witness :
  Version.compare_versions (rs "1.10.0") (rs "1.9.9") = true /\
  Version.compare_versions (rs "1.9.9") (rs "1.2") = true /\
  Version.compare_versions (rs "1.10.0") (rs "1.2") = true.
Proof.
  assert (H1 : Version.compare_versions (rs "1.10.0") (rs "1.9.9") = true) by reflexivity.
  assert (H2 : Version.compare_versions (rs "1.9.9") (rs "1.2") = true) by reflexivity.
  exact (conj H1 (conj H2 (proj2 compare_versions_strict_order _ _ _ H1 H2))).
Defined.

(** Only the first three parsed components, padded with 0, matter: two
    versions that agree there (["1.2"], ["1.2.0"], ["1.2.0.7"]) compare the
    same way against every other version, on either side. *)
Theorem compare_versions_first_three a b :
  (forall i, i < 3 -> Version.comp (Version.parse_version a) i = Version.comp (Version.parse_version b) i) ->
  forall c, Version.compare_versions a c = Version.compare_versions b c /\
            Version.compare_versions c a = Version.compare_versions c b.
Proof.
  intros H c.
  assert (H0 := H 0 ltac:(lia)). assert (H1 := H 1 ltac:(lia)). assert (H2 := H 2 ltac:(lia)).
  split; apply Bool.eq_iff_eq_true; unfold Version.compare_versions; rewrite !cmp_loop_lex;
    unfold Version.lex_gt3; rewrite H0, H1, H2; reflexivity.
Qed.

Lemma compare_versions_first_three_witness :
  Version.compare_versions (rs "1.2") (rs "1.1.9") = Version.compare_versions (rs "1.2.0.7") (rs "1.1.9")
  /\ Version.compare_versions (rs "1.1.9") (rs "1.2") = Version.compare_versions (rs "1.1.9") (rs "1.2.0.7").
Proof.
  apply compare_versions_first_three.
  intros i Hi. destruct i as [|[|[|i]]]; [reflexivity|reflexivity|reflexivity|lia].
Defined.

Lemma trim_start_v_head s : head (Version.trim_start_v s) <> Some 118%N.
Proof.
  induction s as [|c s IH]; simpl; [done|].
  destruct (decide (c = 118%N)) as [->|Hc]; [exact IH|].
  destruct c as [|p]; [done|]. repeat (destruct p; try done).
  all: simpl; intros [=]; done.
Qed.

(** [check_for_updates] strips every leading ['v'] of the release tag:
    the answer for ["v" ++ tag] is the answer for [tag], and the reported
    [latest_version] carries exactly one leading ['v']. *)
Theorem check_for_updates_v_prefix current tag url :
  Version.check_for_updates current (inl (Some (118%N :: tag), url))
    = Version.check_for_updates current (inl (Some tag, url)) /\
  forall info, Version.check_for_updates current (inl (Some tag, url)) = ApiOk info ->
    exists l, Version.latest_version info = 118%N :: l /\ head l <> Some 118%N.
Proof.
  split; [reflexivity|].
  intros info [= <-]. simpl. eexists. split; [reflexivity|]. apply trim_start_v_head.
Qed.

Lemma check_for_updates_v_prefix_witness :
  exists info, Version.check_for_updates (rs "3.3.0") (inl (Some (rs "vv3.3.1"), None)) = ApiOk info /\
    exists l, Version.latest_version info = 118%N :: l /\ head l <> Some 118%N.
Proof.
  eexists. split; [reflexivity|].
  apply (proj2 (check_for_updates_v_prefix (rs "3.3.0") (rs "vv3.3.1") None)). reflexivity.
Defined.

(* ------------------------------------------------------------------ *)
(** ** z.ai model listing *)

(** [join_base_url] ignores trailing ['/']s of the base and adds the
    ['/'] a path without one lacks, so both spellings give the same URL. *)
Theorem join_base_url_normalises :
  (forall base path,
     ZaiModels.join_base_url (base ++ [47%N]) path = ZaiModels.join_base_url base path) /\
  (forall base path, head path <> Some 47%N ->
     ZaiModels.join_base_url base path = ZaiModels.join_base_url base (47%N :: path)).
Proof.
  split.
  - intros base path. unfold ZaiModels.join_base_url. rewrite reverse_snoc. reflexivity.
  - intros base [|c path] Hp; unfold ZaiModels.join_base_url; [reflexivity|].
    destruct (decide (c = 47%N)) as [->|Hc]; [done|].
    destruct c as [|q]; [reflexivity|]. repeat (destruct q; try reflexivity). done.
Qed.

Lemma join_base_url_normalises_witness :
  ZaiModels.join_base_url (rs "https://api.z.ai/api/anthropic") (rs "v1/models")
  = ZaiModels.join_base_url (rs "https://api.z.ai/api/anthropic") (rs "/v1/models").
Proof. apply (proj2 join_base_url_normalises). intros H. vm_compute in H. congruence. Defined.

Lemma json_strings_array_cons x l :
  json_strings (ZaiModels.Array (x :: l)) = json_strings x ++ json_strings (ZaiModels.Array l).
Proof. reflexivity. Qed.

Lemma json_strings_object_cons k x m :
  json_strings (ZaiModels.Object ((k, x) :: m)) = json_strings x ++ json_strings (ZaiModels.Object m).
Proof. reflexivity. Qed.

Lemma obj_get_strings k m v :
  ZaiModels.obj_get k m = Some v ->
  forall s, s ∈ json_strings v -> s ∈ json_strings (ZaiModels.Object m).
Proof.
  induction m as [|[k' x] m IH]; intros Hg s Hs; [discriminate|].
  rewrite json_strings_object_cons. simpl in Hg. case_decide.
  - injection Hg as <-. apply elem_of_app. by left.
  - apply elem_of_app. right. by apply (IH Hg).
Qed.

Lemma obj_get_str k m x :
  (ZaiModels.obj_get k m ≫= ZaiModels.as_str) = Some x ->
  x ∈ json_strings (ZaiModels.Object m).
Proof.
  destruct (ZaiModels.obj_get k m) as [v|] eqn:E; simpl; [|discriminate].
  destruct v; simpl; try discriminate. intros [= ->].
  apply (obj_get_strings _ _ _ E). by left.
Qed.

Lemma push_from_item_spec out item :
  exists ids, ZaiModels.push_from_item out item = out ++ ids /\ length ids <= 1 /\
    forall s, s ∈ ids -> s ∈ json_strings item.
Proof.
  destruct item as [| | |s|l|m]; simpl;
    try (exists []; rewrite app_nil_r; split; [done|split; [simpl; lia|set_solver]]).
  - exists [s]. split; [done|]. split; [simpl; lia|]. intros x Hx. done.
  - destruct (ZaiModels.obj_get (rs "id") m ≫= ZaiModels.as_str) as [x|] eqn:Ei.
    { exists [x]. split; [done|]. split; [simpl; lia|].
      intros y Hy. apply list_elem_of_singleton in Hy as ->. by apply (obj_get_str _ _ _ Ei). }
    destruct (ZaiModels.obj_get (rs "name") m ≫= ZaiModels.as_str) as [x|] eqn:En.
    { exists [x]. split; [done|]. split; [simpl; lia|].
      intros y Hy. apply list_elem_of_singleton in Hy as ->. by apply (obj_get_str _ _ _ En). }
    exists []. rewrite app_nil_r. split; [done|]. split; [simpl; lia|set_solver].
Qed.

Lemma push_all_spec out arr :
  exists ids, ZaiModels.push_all out arr = out ++ ids /\ length ids <= length arr /\
    forall s, s ∈ ids -> s ∈ json_strings (ZaiModels.Array arr).
Proof.
  revert out. induction arr as [|x arr IH]; intros out.
  - exists []. rewrite app_nil_r. split; [done|]. split; [simpl; lia|set_solver].
  - change (ZaiModels.push_all out (x :: arr))
      with (ZaiModels.push_all (ZaiModels.push_from_item out x) arr).
    destruct (push_from_item_spec out x) as (ids1 & E1 & L1 & S1).
    destruct (IH (ZaiModels.push_from_item out x)) as (ids2 & E2 & L2 & S2).
    exists (ids1 ++ ids2). rewrite E2, E1, app_assoc. split; [done|].
    split; [rewrite length_app; simpl; lia|].
    intros s Hs. rewrite json_strings_array_cons. apply elem_of_app.
    apply elem_of_app in Hs as [Hs|Hs]; [left; by apply S1|right; by apply S2].
Qed.

Lemma push_from_item_app out item :
  ZaiModels.push_from_item out item = out ++ ZaiModels.push_from_item [] item.
Proof.
  destruct item as [| | |s|l|m]; simpl; try done; try by rewrite app_nil_r.
  destruct (ZaiModels.obj_get (rs "id") m ≫= ZaiModels.as_str); [done|].
  destruct (ZaiModels.obj_get (rs "name") m ≫= ZaiModels.as_str); [done|].
  by rewrite app_nil_r.
Qed.

Lemma push_all_concat out arr :
  ZaiModels.push_all out arr = out ++ concat (map (ZaiModels.push_from_item []) arr).
Proof.
  revert out. induction arr as [|x arr IH]; intros out; simpl; [by rewrite app_nil_r|].
  change (ZaiModels.push_all out (x :: arr))
    with (ZaiModels.push_all (ZaiModels.push_from_item out x) arr).
  rewrite IH, push_from_item_app, app_assoc. done.
Qed.

(** [extract_model_ids] invents nothing: every id it returns is a string
    occurring in the upstream JSON value.  From a top-level array it takes
    at most one id per item, in item order: the result is the
    concatenation, over the items, of what each item gives on its own,
    which is at most one string, found in that item. *)
Theorem extract_model_ids_from_json :
  (forall v s, s ∈ ZaiModels.extract_model_ids v -> s ∈ json_strings v) /\
  (forall arr,
     ZaiModels.extract_model_ids (ZaiModels.Array arr)
       = concat (map (ZaiModels.push_from_item []) arr) /\
     Forall (fun item => length (ZaiModels.push_from_item [] item) <= 1 /\
               forall s, s ∈ ZaiModels.push_from_item [] item -> s ∈ json_strings item) arr).
Proof.
  split.
  - intros [|b|z|t|arr|m] s; simpl; try (intros Hs; by apply not_elem_of_nil in Hs).
    + destruct (push_all_spec [] arr) as (ids & -> & _ & S). simpl. apply S.
    + assert (Hout : forall s, s ∈ match ZaiModels.obj_get (rs "data") m with
                                   | Some (ZaiModels.Array arr) => ZaiModels.push_all [] arr
                                   | _ => [] end -> s ∈ json_strings (ZaiModels.Object m)).
      { destruct (ZaiModels.obj_get (rs "data") m) as [v|] eqn:Ed;
          [|intros ? H; by apply not_elem_of_nil in H].
        destruct v as [| | | |arr|]; try (intros ? H; by apply not_elem_of_nil in H).
        intros x Hx. destruct (push_all_spec [] arr) as (ids & E & _ & S).
        rewrite E in Hx. apply (obj_get_strings _ _ _ Ed). by apply S. }
      revert Hout. generalize (match ZaiModels.obj_get (rs "data") m with
                               | Some (ZaiModels.Array arr) => ZaiModels.push_all [] arr
                               | _ => [] end) as out. intros out Hout.
      destruct (ZaiModels.obj_get (rs "models") m) as [v|] eqn:Em; [|apply Hout].
      assert (Hv : forall x, x ∈ json_strings v -> x ∈ json_strings (ZaiModels.Object m))
        by apply (obj_get_strings _ _ _ Em).
      assert (Hm : exists ids,
                 match v with
                 | ZaiModels.Array arr => ZaiModels.push_all out arr
                 | _ => ZaiModels.push_from_item out v
                 end = out ++ ids /\ forall x, x ∈ ids -> x ∈ json_strings v).
      { destruct (push_from_item_spec out v) as (ids1 & E1 & _ & S1).
        destruct v as [| | | |arr|]; try (exists ids1; split; [exact E1|exact S1]).
        destruct (push_all_spec out arr) as (ids & E & _ & S). exists ids. split; [exact E|exact S]. }
      destruct Hm as (ids & E & S). rewrite E. intros Hs.
      apply elem_of_app in Hs as [Hs|Hs]; [by apply Hout|apply Hv; by apply S].
  - intros arr. split; [apply push_all_concat|].
    apply Forall_forall. intros item _.
    destruct (push_from_item_spec [] item) as (ids & E & L & S).
    rewrite E. simpl. split; [exact L|exact S].
Qed.

Lemma extract_model_ids_from_json_witness :
  rs "glm-4.5" ∈ ZaiModels.extract_model_ids ex_models_json /\
  rs "glm-4.5" ∈ json_strings ex_models_json.
Proof.
  assert (H : rs "glm-4.5" ∈ ZaiModels.extract_model_ids ex_models_json).
  { vm_compute. right. right. left. }
  exact (conj H (proj1 extract_model_ids_from_json _ _ H)).
Defined.

Lemma insert_sorted_perm x l : ZaiModels.insert_sorted x l ≡ₚ x :: l.
Proof.
  induction l as [|y l IH]; simpl; [done|].
  destruct (ZaiModels.str_leb x y); [done|]. rewrite IH. constructor.
Qed.

Lemma sort_perm l : ZaiModels.sort l ≡ₚ l.
Proof. induction l as [|x l IH]; simpl; [done|]. by rewrite insert_sorted_perm, IH. Qed.

Lemma dedup_elem x l : x ∈ ZaiModels.dedup l <-> x ∈ l.
Proof.
  induction l as [|y l IH]; simpl; [done|].
  destruct l as [|z l]; [done|].
  case_decide as Hyz.
  - subst z. rewrite IH. rewrite !elem_of_cons. tauto.
  - rewrite !elem_of_cons, IH, elem_of_cons. tauto.
Qed.

(** Sorting and deduplicating lose nothing: a successful
    [fetch_zai_models] answers a 2xx JSON response, and lists exactly the
    ids [extract_model_ids] finds in it that are not blank. *)
Theorem fetch_zai_models_keeps_all_ids env req urls models :
  ZaiModels.fetch_zai_models env req = (urls, ApiOk models) ->
  exists status json,
    ZaiModels.fe_response env = inl (status, Some json) /\
    (200 <= status < 300)%N /\
    forall s, s ∈ models <->
              s ∈ ZaiModels.extract_model_ids json /\ ZaiModels.is_blank s = false.
Proof.
  unfold ZaiModels.fetch_zai_models.
  destruct (ZaiModels.is_blank _); [discriminate|].
  destruct (ZaiModels.is_blank _); [discriminate|].
  destruct (_ && _ && _); [discriminate|].
  destruct (negb (ZaiModels.fe_client_ok env)); [discriminate|].
  destruct (ZaiModels.fe_response env) as [[status [json|]]|e]; try discriminate;
    [|destruct (negb _); discriminate].
  destruct ((200 <=? status)%N && (status <? 300)%N) eqn:Hst; simpl; [|discriminate].
  intros [= _ <-]. exists status, json.
  apply andb_true_iff in Hst as [H1 H2]. apply N.leb_le in H1. apply N.ltb_lt in H2.
  split; [done|]. split; [lia|].
  intros s. rewrite dedup_elem, (sort_perm _), list_elem_of_filter. tauto.
Qed.

Lemma fetch_zai_models_keeps_all_ids_witness :
  exists status json,
    ZaiModels.fe_response ex_fetch_env = inl (status, Some json) /\
    (200 <= status < 300)%N /\
    forall s, s ∈ [rs "glm-4.5"; rs "glm-4.6"] <->
              s ∈ ZaiModels.extract_model_ids json /\ ZaiModels.is_blank s = false.
Proof.
  apply (fetch_zai_models_keeps_all_ids ex_fetch_env
           (ex_fetch_req (rs "https://api.z.ai/api/anthropic/") (rs "sk-zai"))
           [rs "https://api.z.ai/api/anthropic/v1/models"]).
  vm_compute. reflexivity.
Defined.

(* ------------------------------------------------------------------ *)
(** ** Service handlers *)

Lemma load_accounts_len s tm tm' n :
  load_accounts s tm = inl (tm', n) -> n = tm_len tm'.
Proof. destruct s; simpl; [intros [= <- <-]; done|discriminate]. Qed.

Lemma load_accounts_sticky s tm tm' n :
  load_accounts s tm = inl (tm', n) -> tm_sticky tm' = tm_sticky tm.
Proof. destruct s; simpl; [intros [= <- <-]; done|discriminate]. Qed.

Lemma load_accounts_pool s tm tm' n :
  load_accounts (inl s) tm = inl (tm', n) ->
  forall x a, (x, a) ∈ tm_pool tm' -> s !! x = Some a.
Proof.
  simpl. intros [= <- _] x a Hx. simpl in Hx.
  apply list_elem_of_filter in Hx as [_ Hx]. by apply elem_of_map_to_list in Hx.
Qed.

(** The count a successful start or pool reload answers is what
    [get_proxy_status] reports next: a start answers exactly the status
    the service then has, and after [reload_proxy_accounts] answers [n]
    the status reports [n] active accounts. *)
Theorem status_reports_loaded_count :
  (forall env cfg disk w w' st,
     start_proxy_service env cfg disk w = (w', ApiOk st) -> get_proxy_status w' = ApiOk st) /\
  (forall r disk w w' n,
     reload_proxy_accounts r disk w = (w', ApiOk n) ->
     exists i, proxy_instance w' = Some i /\
       get_proxy_status w' = ApiOk (mkProxyStatus true (pc_port (inst_config i))
                                      (format_base_url (pc_port (inst_config i))) n)).
Proof.
  split.
  - intros env cfg disk w w' st. unfold start_proxy_service.
    destruct (proxy_instance w); [discriminate|].
    destruct (env_data_dir env); [|discriminate].
    destruct (load_accounts _ _) as [[tm n]|] eqn:El; [|discriminate].
    destruct (Nat.eqb n 0 && _); [discriminate|].
    destruct (env_bind env); [|discriminate].
    intros [= <- <-]. unfold get_proxy_status. simpl.
    by rewrite (load_accounts_len _ _ _ _ El).
  - intros r disk w w' n. unfold reload_proxy_accounts.
    destruct (proxy_instance w) as [i|] eqn:E; [|discriminate].
    destruct (load_accounts _ _) as [[tm n']|] eqn:El; [|discriminate].
    intros [= <- <-]. unfold on_token_manager. rewrite E. simpl.
    eexists. split; [reflexivity|]. unfold get_proxy_status. simpl.
    by rewrite (load_accounts_len _ _ _ _ El).
Qed.

Lemma status_reports_loaded_count_witness :
  get_proxy_status (start_proxy_service ex_env ex_cfg ex_disk WebApiState_new).1 = ApiOk ex_status /\
  exists i, proxy_instance (reload_proxy_accounts (inl ()) ex_disk ex_running).1 = Some i /\
    get_proxy_status (reload_proxy_accounts (inl ()) ex_disk ex_running).1
      = ApiOk (mkProxyStatus true (pc_port (inst_config i)) (format_base_url (pc_port (inst_config i))) 1).
Proof.
  split.
  - apply (proj1 status_reports_loaded_count ex_env ex_cfg ex_disk WebApiState_new _ ex_status).
    vm_compute. reflexivity.
  - apply (proj2 status_reports_loaded_count (inl ()) ex_disk ex_running _ 1).
    vm_compute. reflexivity.
Defined.

(** Whatever its outcome, a start on a stopped service leaves a monitor
    behind, enabled exactly when [enable_logging] is set: an existing
    monitor keeps its buffer and capacity, otherwise an empty one of
    capacity 1000 is created.  Even a failed start (no data directory,
    no accounts, socket in use) does so. *)
Theorem start_sets_monitor env cfg disk w :
  proxy_instance w = None ->
  exists m, monitor (start_proxy_service env cfg disk w).1 = Some m /\
    mon_enabled m = pc_enable_logging cfg /\
    mon_logs m = match monitor w with Some m0 => mon_logs m0 | None => [] end /\
    mon_capacity m = match monitor w with Some m0 => mon_capacity m0 | None => 1000 end.
Proof.
  intros H. rewrite (start_monitor _ _ _ _ H). eexists. split; [reflexivity|].
  destruct (monitor w); simpl; auto.
Qed.

Lemma start_sets_monitor_witness :
  (start_proxy_service (mkStartEnv (inr "no home directory") (inl ()) (inl ())) ex_cfg_nolog
     ex_disk WebApiState_new).2 = ApiErr (DataDirError "no home directory") /\
  exists m, monitor (start_proxy_service (mkStartEnv (inr "no home directory") (inl ()) (inl ()))
                       ex_cfg_nolog ex_disk WebApiState_new).1 = Some m /\
    mon_enabled m = false /\ mon_logs m = [] /\ mon_capacity m = 1000.
Proof.
  split; [reflexivity|].
  exact (start_sets_monitor (mkStartEnv (inr "no home directory") (inl ()) (inl ())) ex_cfg_nolog
           ex_disk WebApiState_new eq_refl).
Defined.

Lemma step_logs o W L :
  is_log_op o = false -> logs_of (w_state W) = Some L -> logs_of (w_state (step o W)) = Some L.
Proof.
  destruct W as [w disk]. unfold logs_of. simpl. intros Ho H. destruct o; simpl; try discriminate.
  - destruct (proxy_instance w) eqn:E.
    + unfold start_proxy_service. rewrite E. exact H.
    + rewrite (start_monitor _ _ _ _ E). destruct (monitor w); [exact H|discriminate].
  - unfold stop_proxy_service. destruct (proxy_instance w); exact H.
  - exact H.
  - unfold save_config. destruct saved; simpl; [rewrite on_server_monitor|]; exact H.
  - unfold update_model_mapping. simpl. rewrite on_server_monitor. exact H.
  - destruct (toggle_cases id enable reason env disk w) as [[e ->]|(a & _ & _ & _ & _ & _ & ->)];
      simpl; [exact H|]. rewrite reload_internal_monitor. exact H.
  - unfold reload_proxy_accounts. destruct (proxy_instance w); simpl; [|exact H].
    destruct (load_accounts _ _) as [[??]|]; simpl; [|exact H].
    rewrite on_token_manager_monitor; exact H.
  - unfold clear_proxy_session_bindings. destruct (proxy_instance w); simpl;
      [rewrite on_token_manager_monitor|]; exact H.
  - rewrite on_token_manager_monitor. exact H.
  - rewrite on_token_manager_monitor. exact H.
  - rewrite on_token_manager_monitor. exact H.
  - unfold set_proxy_monitor_enabled. destruct (monitor w) as [m|] eqn:E; [exact H|discriminate].
Qed.

(** The monitor outlives the service: once it exists, stops, restarts
    (whatever their outcome), configuration changes, pool operations and
    enabling or disabling logging leave its log buffer as it is; only
    [record] and [clear_proxy_logs] change it. *)
Theorem logs_survive_restarts ops W L :
  Forall (fun o => is_log_op o = false) ops ->
  logs_of (w_state W) = Some L ->
  logs_of (w_state (run ops W)) = Some L.
Proof.
  intros Hops. revert W. induction Hops as [|o ops Ho Hops IH]; intros W H; simpl; [done|].
  apply IH. by apply step_logs.
Qed.

Lemma logs_survive_restarts_witness :
  logs_of (w_state (run [OpStop; OpStart ex_env ex_cfg_nolog; OpSetMonitor true]
                      (run [OpStart ex_env ex_cfg; OpRecord ex_log] (mkWorld WebApiState_new ex_disk))))
  = Some [ex_log].
Proof.
  apply logs_survive_restarts.
  - repeat constructor.
  - vm_compute. reflexivity.
Defined.

(** The scheduling endpoints: while the service runs, the policy
    [update_proxy_scheduling_config] installs is the one
    [get_proxy_scheduling_config] reads back; while stopped, an update
    fails with [NotRunning] and changes nothing, and reads give the
    default policy; and a successful start installs [config.scheduling]. *)
Theorem scheduling_round_trip :
  (forall c w, proxy_instance w <> None ->
     (update_proxy_scheduling_config c w).2 = ApiOk () /\
     get_proxy_scheduling_config (update_proxy_scheduling_config c w).1 = ApiOk c) /\
  (forall c w, proxy_instance w = None ->
     update_proxy_scheduling_config c w = (w, ApiErr NotRunning) /\
     get_proxy_scheduling_config w = ApiOk default_sticky) /\
  (forall env cfg disk w w' st,
     start_proxy_service env cfg disk w = (w', ApiOk st) ->
     get_proxy_scheduling_config w' = ApiOk (pc_scheduling cfg)).
Proof.
  split; [|split].
  - intros c w H. unfold update_proxy_scheduling_config.
    destruct (proxy_instance w) as [i|] eqn:E; [|done]. split; [done|].
    unfold on_token_manager, get_proxy_scheduling_config. rewrite E. done.
  - intros c w H. unfold update_proxy_scheduling_config, get_proxy_scheduling_config.
    rewrite H. done.
  - intros env cfg disk w w' st. unfold start_proxy_service.
    destruct (proxy_instance w); [discriminate|].
    destruct (env_data_dir env); [|discriminate].
    destruct (load_accounts _ _) as [[tm n]|] eqn:El; [|discriminate].
    destruct (Nat.eqb n 0 && _); [discriminate|].
    destruct (env_bind env); [|discriminate].
    intros [= <- _]. unfold get_proxy_scheduling_config. simpl.
    by rewrite (load_accounts_sticky _ _ _ _ El).
Qed.

Lemma scheduling_round_trip_witness :
  get_proxy_scheduling_config (update_proxy_scheduling_config ex_sticky ex_running).1 = ApiOk ex_sticky /\
  update_proxy_scheduling_config ex_sticky WebApiState_new = (WebApiState_new, ApiErr NotRunning) /\
  get_proxy_scheduling_config ex_running = ApiOk (pc_scheduling ex_cfg).
Proof.
  split; [|split].
  - apply (proj1 scheduling_round_trip ex_sticky ex_running). vm_compute. discriminate.
  - apply (proj1 (proj2 scheduling_round_trip) ex_sticky WebApiState_new). reflexivity.
  - apply (proj2 (proj2 scheduling_round_trip) ex_env ex_cfg ex_disk WebApiState_new _ ex_status).
    vm_compute. reflexivity.
Defined.



Lemma reload_internal_pool disk w i :
  proxy_instance (reload_proxy_accounts_internal (inl ()) disk w) = Some i ->
  forall x a, (x, a) ∈ tm_pool (inst_token_manager i) -> disk !! x = Some a.
Proof.
  unfold reload_proxy_accounts_internal.
  destruct (proxy_instance w) as [i0|] eqn:E; [|rewrite E; discriminate].
  cbn [read_store].
  destruct (load_accounts (inl disk) (inst_token_manager i0)) as [[tm n]|] eqn:El; [|discriminate].
  unfold on_token_manager. rewrite E. simpl. intros [= <-]. simpl.
  exact (load_accounts_pool _ _ _ _ El).
Qed.

Lemma foldr_delete_lookup (ids : list string) (disk : AccountStore) x :
  x ∈ ids -> foldr delete disk ids !! x = None.
Proof.
  induction ids as [|y ids IH]; intros Hx; [by apply not_elem_of_nil in Hx|]. simpl.
  destruct (decide (y = x)) as [->|Hne]; [apply lookup_delete_eq|].
  rewrite lookup_delete_ne by done. apply IH.
  apply elem_of_cons in Hx as [->|Hx]; [done|exact Hx].
Qed.

(** A successful [delete_account] or [delete_accounts] reloads the pool
    of a running service; when that reload succeeds, no deleted account
    can be selected any more: none of the deleted ids is left in the pool.
    A failure of the reload is discarded: the handler still answers
    success and the service, with its old pool, is left as it was. *)
Theorem deleted_accounts_leave_pool :
  (forall r id disk w disk' w',
     delete_account r (inl ()) id disk w = (disk', w', ApiOk ()) ->
     forall i, proxy_instance w' = Some i -> id ∉ (tm_pool (inst_token_manager i)).*1) /\
  (forall r ids disk w disk' w',
     delete_accounts r (inl ()) ids disk w = (disk', w', ApiOk ()) ->
     forall i, proxy_instance w' = Some i ->
     forall id, id ∈ ids -> id ∉ (tm_pool (inst_token_manager i)).*1) /\
  (forall e id disk w,
     delete_account (inl ()) (inr e) id disk w = (delete id disk, w, ApiOk ())) /\
  (forall e ids disk w,
     delete_accounts (inl ()) (inr e) ids disk w = (foldr delete disk ids, w, ApiOk ())).
Proof.
  split; [|split; [|split]].
  - intros r id disk w disk' w'. unfold delete_account. destruct r; [|discriminate].
    intros [= <- <-] i Hi Hin. apply list_elem_of_fmap in Hin as [[x a] [-> Hx]].
    pose proof (reload_internal_pool _ _ _ Hi x a Hx) as Hl. simpl in Hl.
    rewrite lookup_delete_eq in Hl. discriminate.
  - intros r ids disk w disk' w'. unfold delete_accounts. destruct r; [|discriminate].
    intros [= <- <-] i Hi id Hid Hin. apply list_elem_of_fmap in Hin as [[x a] [-> Hx]].
    pose proof (reload_internal_pool _ _ _ Hi x a Hx) as Hl. simpl in Hl.
    rewrite foldr_delete_lookup in Hl by exact Hid. discriminate.
  - intros e id disk w. unfold delete_account. by rewrite reload_internal_failed.
  - intros e ids disk w. unfold delete_accounts. by rewrite reload_internal_failed.
Qed.

Lemma deleted_accounts_leave_pool_witness :
  (exists i, proxy_instance (delete_account (inl ()) (inl ()) "acc-1" ex_disk2 ex_running2).1.2
               = Some i /\ "acc-1" ∉ (tm_pool (inst_token_manager i)).*1) /\
  ("acc-1" ∈ (tm_pool (inst_token_manager (default ex_instance (proxy_instance ex_running2)))).*1).
Proof.
  split; [|vm_compute; left].
  eexists. split; [vm_compute; reflexivity|].
  apply (proj1 deleted_accounts_leave_pool (inl ()) "acc-1" ex_disk2 ex_running2
           (delete "acc-1" ex_disk2)
           (delete_account (inl ()) (inl ()) "acc-1" ex_disk2 ex_running2).1.2).
  - reflexivity.
  - vm_compute. reflexivity.
Defined.

Lemma omap_cons_app {A B} (f : A -> option B) x l :
  omap f (x :: l) = option_list (f x) ++ omap f l.
Proof. simpl. by destruct (f x). Qed.

Lemma refresh_one_spec fetch upd s f d q a :
  (Quotas.refreshed a = false /\ Quotas.refresh_one fetch upd (s, f, d, q) a = (s, f, d, q)) \/
  (Quotas.refreshed a = true /\ exists s1 f1, s1 + f1 = S (s + f) /\
     Quotas.refresh_one fetch upd (s, f, d, q) a
       = (s1, f1, d ++ option_list (Quotas.failure_line fetch a), q ++ [Quotas.id a])).
Proof.
  unfold Quotas.refresh_one, Quotas.refreshed, Quotas.failure_line.
  destruct (acc_disabled (Quotas.account a)); simpl; [by left|].
  destruct (quota_forbidden (Quotas.account a)); simpl; [by left|].
  right. split; [done|].
  destruct (fetch (Quotas.id a)) as [quota|e]; cbn [option_list].
  - rewrite app_nil_r. destruct (upd (Quotas.id a) quota); eexists _, _; (split; [|reflexivity]); lia.
  - eexists _, _. split; [|reflexivity]. lia.
Qed.

Lemma refresh_loop fetch upd accounts s f d q s' f' d' q' :
  fold_left (Quotas.refresh_one fetch upd) accounts (s, f, d, q) = (s', f', d', q') ->
  q' = q ++ map Quotas.id (Quotas.refreshed_accounts accounts) /\
  s' + f' = s + f + length (Quotas.refreshed_accounts accounts) /\
  d' = d ++ omap (Quotas.failure_line fetch) (Quotas.refreshed_accounts accounts).
Proof.
  unfold Quotas.refreshed_accounts.
  revert s f d q. induction accounts as [|a accounts IH]; intros s f d q H.
  - simpl in H. injection H as <- <- <- <-. simpl. rewrite !app_nil_r. split; [done|]. split; [lia|done].
  - cbn [fold_left] in H.
    destruct (refresh_one_spec fetch upd s f d q a) as [[Hr Ho]|[Hr (s1 & f1 & Hsf & Ho)]];
      rewrite Ho in H; apply IH in H as (Hq & Hsum & Hd).
    + rewrite filter_cons_False by congruence. done.
    + rewrite filter_cons_True by done. rewrite omap_cons_app. simpl.
      rewrite Hq, Hd, <- !app_assoc. split; [done|]. split; [lia|done].
Qed.

(** [refresh_all_quotas] skips the disabled and the quota-forbidden
    accounts (a proxy-disabled account is still refreshed) and requests
    the quota of every other one, once, in list order; [total] is
    [success + failed] and is the number of accounts requested, and
    [details] has one ["email: error"] line per account whose fetch
    failed, in order (a failed save counts as failed without a line). *)
Theorem refresh_all_quotas_accounting accounts fetch upd fetched stats :
  Quotas.refresh_all_quotas (inl accounts) fetch upd = (fetched, ApiOk stats) ->
  fetched = map Quotas.id (Quotas.refreshed_accounts accounts) /\
  Quotas.total stats = Quotas.success stats + Quotas.failed stats /\
  Quotas.total stats = length (Quotas.refreshed_accounts accounts) /\
  Quotas.details stats = omap (Quotas.failure_line fetch) (Quotas.refreshed_accounts accounts).
Proof.
  unfold Quotas.refresh_all_quotas.
  destruct (fold_left _ accounts _) as [[[s f] d] q] eqn:E.
  intros [= <- <-]. simpl.
  apply refresh_loop in E as (Hq & Hsum & Hd). simpl in *.
  split; [done|]. split; [done|]. split; [lia|done].
Qed.

Lemma refresh_all_quotas_accounting_witness :
  let accounts := [Quotas.mkListedAccount "a1" "a1@example.com" ex_account;
                   Quotas.mkListedAccount "a2" "a2@example.com"
                     (mkAccount true false None None None);
                   Quotas.mkListedAccount "a3" "a3@example.com"
                     (mkAccount false true (Some "manual") (Some 0%Z) None)] in
  let fetch := fun i => if bool_decide (i = "a3") then inr "timeout" else inl (mkQuotaData false) in
  let upd := fun (_ : string) (_ : QuotaData) => inl () : unit + string in
  (Quotas.refresh_all_quotas (inl accounts) fetch upd).1 = ["a1"; "a3"] /\
  exists stats, (Quotas.refresh_all_quotas (inl accounts) fetch upd).2 = ApiOk stats /\
    Quotas.total stats = 2 /\ Quotas.details stats = ["a3@example.com: timeout"].
Proof.
  intros accounts fetch upd.
  destruct (refresh_all_quotas_accounting accounts fetch upd
              (Quotas.refresh_all_quotas (inl accounts) fetch upd).1
              (Quotas.mkRefreshStats 2 1 1 ["a3@example.com: timeout"])) as (Hf & _ & Ht & Hd).
  { vm_compute. reflexivity. }
  split; [rewrite Hf; vm_compute; reflexivity|].
  eexists. split; [vm_compute; reflexivity|]. split; [reflexivity|reflexivity].
Defined.

Lemma reload_internal_pool_complete disk w x a :
  proxy_instance w <> None -> disk !! x = Some a -> eligible a = true ->
  exists i, proxy_instance (reload_proxy_accounts_internal (inl ()) disk w) = Some i /\
    x ∈ (tm_pool (inst_token_manager i)).*1.
Proof.
  intros Hw Hx He. unfold reload_proxy_accounts_internal.
  destruct (proxy_instance w) as [i0|] eqn:E; [|done]. simpl.
  unfold on_token_manager. rewrite E. eexists. split; [reflexivity|]. simpl.
  apply list_elem_of_fmap. exists (x, a). split; [done|].
  apply list_elem_of_filter. split; [done|]. by apply elem_of_map_to_list.
Qed.

(** Re-enabling an account with [toggle_proxy_status] while the service
    runs puts it back in the pool, when the toggle succeeds and so does
    the reload that follows it, unless the account is disabled altogether
    or its quota is forbidden. *)
Theorem toggle_enable_readmits id a reason env disk w disk' w' :
  proxy_instance w <> None ->
  disk !! id = Some a -> acc_disabled a = false -> quota_forbidden a = false ->
  toggle_proxy_status id true reason env disk w = (disk', w', ApiOk ()) ->
  te_reload env = inl () ->
  exists i, proxy_instance w' = Some i /\ id ∈ (tm_pool (inst_token_manager i)).*1.
Proof.
  intros Hw Hl Hd Hq Ht Hr.
  destruct (toggle_cases id true reason env disk w) as [[e He]|(a' & _ & Ha & _ & _ & _ & He)];
    rewrite He in Ht; [discriminate|].
  rewrite Hl in Ha. injection Ha as <-. injection Ht as _ <-. rewrite Hr.
  eapply reload_internal_pool_complete; [done|apply lookup_insert_eq|].
  unfold eligible, quota_forbidden in *. simpl. by rewrite Hd, Hq.
Qed.

Lemma toggle_enable_readmits_witness :
  ("acc-1" ∉ (tm_pool (inst_token_manager (default ex_instance (proxy_instance ex_running_mixed)))).*1) /\
  exists i, proxy_instance (toggle_proxy_status "acc-1" true None ex_tenv ex_disk_mixed
                              ex_running_mixed).1.2 = Some i /\
    "acc-1" ∈ (tm_pool (inst_token_manager i)).*1.
Proof.
  split; [vm_compute; intros H; inversion H as [|? ? ? H']; inversion H'|].
  apply (toggle_enable_readmits "acc-1" (mkAccount false true (Some "quota") (Some 0%Z) None) None
           ex_tenv ex_disk_mixed ex_running_mixed
           (toggle_proxy_status "acc-1" true None ex_tenv ex_disk_mixed ex_running_mixed).1.1);
    [vm_compute; discriminate|reflexivity|reflexivity|reflexivity|vm_compute; reflexivity|reflexivity].
Defined.
